(** * FakeMemory: a fake byte-addressable memory made of disjoint ranges

    Shallow embedding of [fake_memory.py] and of the part of [helpers.py]
    it uses, followed by the properties of the address-space router
    ([FakeMemoryUnit], [FakeMemory]) and of the S-record front end
    ([FakeMemoryItf]).

    Conventions of the embedding:
    - Python integers are [Z]; a [bytearray] is a [list Z] whose elements
      are checked to lie in [range(0, 256)] whenever they are stored;
    - a Python call that may raise returns a [result]; a method that
      mutates [self] returns the outcome together with the object after
      the call, so that the state left behind by a raised exception is
      part of the model;
    - the units of a [FakeMemory] live in its list [_mu] and are mutated
      in place: a reference to a unit is its index in that list. *)

From Stdlib Require Import ZArith Lia.
From stdpp Require Import base list strings sorting.

Open Scope Z_scope.

(** ** Exceptions and results *)

(** One constructor per raise site. The Python class of each exception is
    given by [is_IOError] and [is_ValueError], which is all the [except]
    clauses of the source look at. *)
Inductive exn : Type :=
| IOError_out_of_range (address : Z)   (* "Address {} out of range." *)
| IOError_no_address (address : Z)     (* "No adress {} in the ranges" *)
| ValueError_overlap                   (* "The provided range overlaps with an existing one." *)
| ValueError_byte                      (* bytearray: byte must be in range(0, 256) *)
| ValueError_int                       (* int(x, 16) on a malformed literal *)
| ValueError_xrange                    (* xrange() arg 3 must not be zero *)
| IndexError                           (* sequence index out of range *)
| TypeError                            (* an integer is required *)
| AttributeError (name : string)       (* getattr on a missing attribute *)
| NotImplementedError (rtype : string) (* "Not implemented SREC Command {}" *)
| ExternalError (what : string).       (* raised inside srec_util *)

Definition is_IOError (e : exn) : bool :=
  match e with
  | IOError_out_of_range _ | IOError_no_address _ => true
  | _ => false
  end.

Definition is_ValueError (e : exn) : bool :=
  match e with
  | ValueError_overlap | ValueError_byte | ValueError_int | ValueError_xrange => true
  | _ => false
  end.

Inductive result (A : Type) : Type :=
| Return (a : A)
| Raise (e : exn).
Arguments Return {A} a.
Arguments Raise {A} e.

#[global] Instance result_ret : MRet result := λ A a, Return a.
#[global] Instance result_bind : MBind result := λ A B f r,
  match r with
  | Return a => f a
  | Raise e => Raise e
  end.

#[global] Instance result_fmap : FMap result := λ A B f r,
  match r with
  | Return a => Return (f a)
  | Raise e => Raise e
  end.

(** The values that travel through the [val] argument and the return value
    of the dynamically dispatched accessors of [FakeMemory]. *)
Inductive pyval : Type :=
| PyNone
| PyInt (n : Z)
| PyList (l : list Z).

(** ** The part of [bytearray] the program uses *)

Abbreviation bytearray := (list Z).

Definition byte_ok (v : Z) : bool := (0 <=? v) && (v <? 256).

(** [bytearray(n * '\x00')]: a non-positive [n] gives the empty string. *)
Definition zeroes (n : Z) : bytearray := replicate (Z.to_nat n) 0.

(** Index normalisation of [b[i]]: a negative index counts from the end. *)
Definition norm_index (b : bytearray) (i : Z) : result nat :=
  let len := Z.of_nat (length b) in
  let i := if i <? 0 then i + len else i in
  if (i <? 0) || (len <=? i) then Raise IndexError else Return (Z.to_nat i).

(** [b[i]] *)
Definition getitem (b : bytearray) (i : Z) : result Z :=
  k ← norm_index b i;
  match b !! k with
  | Some v => Return v
  | None => Raise IndexError
  end.

(** [b[i] = v]: the index is checked first, then the value. *)
Definition setitem (b : bytearray) (i : Z) (v : pyval) : result bytearray :=
  k ← norm_index b i;
  match v with
  | PyInt n => if byte_ok n then Return (<[k:=n]> b) else Raise ValueError_byte
  | _ => Raise TypeError
  end.

(** Clipping of a slice bound to [0 .. len]. *)
Definition clip (len i : Z) : Z :=
  if i <? 0 then Z.max 0 (i + len) else Z.min i len.

(** [b[i:j] = values]: the right-hand side is first converted to bytes
    (which checks every element), then replaces the clipped slice. The
    replacement need not have the length of the slice: the array shrinks
    or grows. *)
Definition setslice (b : bytearray) (i j : Z) (values : list Z) : result bytearray :=
  if forallb byte_ok values then
    let len := Z.of_nat (length b) in
    let lo := clip len i in
    let hi := Z.max lo (clip len j) in
    Return (take (Z.to_nat lo) b ++ values ++ drop (Z.to_nat hi) b)
  else Raise ValueError_byte.

(** ** helpers.py *)

Module helpers.

(** [xrange(0, stop, step)] *)
Definition xrange0 (stop step : nat) : result (list nat) :=
  match step with
  | O => Raise ValueError_xrange
  | S _ => Return ((λ k, k * step)%nat <$> seq 0 (Nat.div (stop + step - 1) step))
  end.

(** [chunker(seq, size)] on a string: the generator is modelled by the
    list of the chunks it yields. *)
Definition chunker (seq : string) (size : nat) : result (list string) :=
  positions ← xrange0 (String.length seq) size;
  Return ((λ pos, String.substring pos size seq) <$> (positions : list nat)).

(** The argument of [str_to_hexstr]: a string, or an integer that [chr]
    turns into a string of one character. *)
Inductive str_or_int : Type :=
| Str (s : string)
| Int (n : Z).

(** [chr(n)]; [None] stands for the [ValueError] it raises outside
    [range(256)]. *)
Definition chr (n : Z) : option Ascii.ascii :=
  if (0 <=? n) && (n <? 256) then Some (Ascii.ascii_of_N (Z.to_N n)) else None.

(** One lowercase hexadecimal digit. *)
Definition hex_lower (d : N) : Ascii.ascii :=
  Ascii.ascii_of_N (if (d <? 10)%N then 48 + d else 87 + d).

(** ["{:02x}".format(ord(c))]: the code of a character is below 256, so
    the result has exactly two digits. *)
Definition format_02x (c : Ascii.ascii) : string :=
  let n := Ascii.N_of_ascii c in
  String (hex_lower (n / 16)) (String (hex_lower (n mod 16)) EmptyString).

(** [str_to_hexstr(s)]; [None] stands for the [ValueError] of [chr]. *)
Definition str_to_hexstr (s : str_or_int) : option string :=
  match (match s with
         | Str s => Some s
         | Int n => (λ c, String c EmptyString) <$> chr n
         end) with
  | Some s => Some (String.concat ":" (format_02x <$> String.list_ascii_of_string s))
  | None => None
  end.

(** [s.split(sep)] for a separator of one character. *)
Fixpoint split (sep : Ascii.ascii) (s : string) : list string :=
  match s with
  | EmptyString => [EmptyString]
  | String c s' =>
      if Ascii.eqb c sep then EmptyString :: split sep s'
      else match split sep s' with
           | sub :: subs => String c sub :: subs
           | [] => [String c EmptyString]
           end
  end.

(** The character ['.']. *)
Definition dot : Ascii.ascii := Ascii.ascii_of_nat 46.

(** [ip_to_bin(s)], given the builtin [int(sub)] in base 10 as a
    parameter; [None] stands for the [ValueError] of [int] or of [chr]. The
    loop is a left fold over the fields, which stops at the first error. *)
Definition ip_to_bin (int10 : string → option Z) (s : string) : option string :=
  foldl (λ out sub,
           match out with
           | Some out =>
               match int10 sub with
               | Some n =>
                   match chr n with
                   | Some c => Some (String.append out (String c EmptyString))
                   | None => None
                   end
               | None => None
               end
           | None => None
           end)
        (Some EmptyString) (split dot s).

Module CustomRange.
Record t : Type := __init__ { start : Z; stop : Z }.

Definition __contains__ (self : t) (item : Z) : bool :=
  (start self <=? item) && (item <=? stop self).
End CustomRange.

End helpers.

Notation "item 'in_range' r" := (helpers.CustomRange.__contains__ r item)
  (at level 55, no associativity).

(** ** class FakeMemoryUnit *)

Module FakeMemoryUnit.

Record t : Type := Build {
  _addr_start : Z;
  length : Z;
  _data : bytearray;
  range : helpers.CustomRange.t;
  description : string
}.

Definition with_data (self : t) (d : bytearray) : t :=
  {| _addr_start := _addr_start self; length := length self; _data := d;
     range := range self; description := description self |}.

Definition start (self : t) : Z := _addr_start self.

(** [end] is a keyword of Rocq, hence the underscore. *)
Definition end_ (self : t) : Z := start self + length self - 1.

Definition clear (self : t) : t := with_data self (zeroes (length self)).

(** The constructor assigns [_addr_start] and [length], clears the data
    and only then builds [range] from [start()] and [end()]; the range of
    the intermediate record stands for the attribute not being set yet and
    is never read. *)
Definition __init__ (addr_start length : Z) (description : string) : t :=
  let self := clear {| _addr_start := addr_start; length := length; _data := [];
                       range := helpers.CustomRange.__init__ 0 0;
                       description := description |} in
  {| _addr_start := _addr_start self; length := FakeMemoryUnit.length self;
     _data := _data self;
     range := helpers.CustomRange.__init__ (start self) (end_ self);
     description := description |}.

Definition _get_address (self : t) (address : Z) : result Z :=
  if address in_range range self then Return (address - start self)
  else Raise (IOError_out_of_range address).

(** [read] does not modify the unit, so only its outcome is returned. *)
Definition read (self : t) (address : Z) (no_error : bool) : result Z :=
  match (i ← _get_address self address; getitem (_data self) i) with
  | Return v => Return v
  | Raise e =>
      if is_IOError e then (if no_error then Return 0 else Raise e)
      else Raise e
  end.

(** The list comprehension of [read32], with the number of addresses as
    a parameter: [read32] is its instance at 32. *)
Definition read_block (self : t) (address count : Z) (no_error : bool)
  : result (list Z) :=
  mapM (λ x, read self x no_error) (seqZ address count).

Definition read32 (self : t) (address : Z) (no_error : bool) : result (list Z) :=
  read_block self address 32 no_error.

Definition write (self : t) (address : Z) (value : pyval) (no_error : bool)
  : result () * t :=
  let body : result bytearray :=
    address ← _get_address self address;
    match value with
    | PyList l => setslice (_data self) address (address + Z.of_nat (List.length l)) l
    | _ => setitem (_data self) address value
    end in
  match body with
  | Return d => (Return (), with_data self d)
  | Raise e =>
      if is_IOError e || is_ValueError e then
        (if no_error then (Return (), self) else (Raise e, self))
      else (Raise e, self)
  end.

End FakeMemoryUnit.

(** ** class FakeMemory *)

(** [l.insert(pos, x)] for a non-negative [pos]: a position past the end
    appends. *)
Definition list_insert_at {A} (pos : nat) (x : A) (l : list A) : list A :=
  take pos l ++ x :: drop pos l.

Module FakeMemory.

Record t : Type := Build { _mu : list FakeMemoryUnit.t }.

Definition __init__ : t := {| _mu := [] |}.

(** Step 1 of [add_range]: the [for] loop, which either raises through
    [overlap_error] or leaves the insertion position in [pos_idx]. *)
Fixpoint find_position (new_mu : FakeMemoryUnit.t) (units : list FakeMemoryUnit.t)
    (pos_idx : nat) : result nat :=
  match units with
  | [] => Return pos_idx
  | fmu :: units =>
      if (FakeMemoryUnit.start new_mu in_range FakeMemoryUnit.range fmu)
         || (FakeMemoryUnit.end_ new_mu in_range FakeMemoryUnit.range fmu)
      then Raise ValueError_overlap
      else if FakeMemoryUnit.start new_mu <? FakeMemoryUnit.start fmu
      then Return pos_idx
      else find_position new_mu units (S pos_idx)
  end.

(** Step 2 of [add_range]: the check against [self._mu[pos_idx+1]]; the
    [IndexError] of a missing element is caught and ignored. *)
Definition check_next (new_mu : FakeMemoryUnit.t) (units : list FakeMemoryUnit.t)
    (pos_idx : nat) : result () :=
  match units !! (pos_idx + 1)%nat with
  | Some next_mu =>
      if FakeMemoryUnit.end_ new_mu >=? FakeMemoryUnit.start next_mu
      then Raise ValueError_overlap
      else Return ()
  | None => Return ()
  end.

Definition add_range (self : t) (addr_start length : Z) (description : string)
  : result () * t :=
  let new_mu := FakeMemoryUnit.__init__ addr_start length description in
  match (pos_idx ← find_position new_mu (_mu self) 0;
         check_next new_mu (_mu self) pos_idx;;
         Return pos_idx) with
  | Return pos_idx =>
      (Return (), {| _mu := list_insert_at pos_idx new_mu (_mu self) |})
  | Raise e => (Raise e, self)
  end.

(** The unit found is returned with its index in [_mu], which stands
    for the reference to the object. *)
Definition _find_mu (self : t) (address : Z) : result (nat * FakeMemoryUnit.t) :=
  match list_find (λ mu, Is_true (address in_range FakeMemoryUnit.range mu)) (_mu self) with
  | Some found => Return found
  | None => Raise (IOError_no_address address)
  end.

(** [getattr(mu, method_name)(address, no_error)] for a name that starts
    with ["read"]. *)
Definition call_read (mu : FakeMemoryUnit.t) (method_name : string)
    (address : Z) (no_error : bool) : result pyval :=
  if String.eqb method_name "read"
  then PyInt <$> FakeMemoryUnit.read mu address no_error
  else if String.eqb method_name "read32"
  then PyList <$> FakeMemoryUnit.read32 mu address no_error
  else Raise (AttributeError method_name).

(** [getattr(mu, method_name)(address, val, no_error)] for a name that
    starts with ["write"]. *)
Definition call_write (mu : FakeMemoryUnit.t) (method_name : string)
    (address : Z) (val : pyval) (no_error : bool)
  : result pyval * FakeMemoryUnit.t :=
  if String.eqb method_name "write"
  then let '(r, mu') := FakeMemoryUnit.write mu address val no_error in
       ((λ _, PyNone) <$> r, mu')
  else (Raise (AttributeError method_name), mu).

Definition _read_write_method (self : t) (method_name : string) (address : Z)
    (val : pyval) (no_error : bool) : result pyval * t :=
  let body : result pyval * t :=
    match _find_mu self address with
    | Raise e => (Raise e, self)
    | Return (i, mu) =>
        if String.prefix "read" method_name then
          (call_read mu method_name address no_error, self)
        else if String.prefix "write" method_name then
          let '(r, mu') := call_write mu method_name address val no_error in
          (r, {| _mu := <[i:=mu']> (_mu self) |})
        else (Return PyNone, self)
    end in
  match body with
  | (Raise e, self') =>
      if is_IOError e then
        (if negb no_error then (Raise e, self') else (Return PyNone, self'))
      else (Raise e, self')
  | other => other
  end.

(** The three accessors bound in the constructor. *)
Definition read := λ self, _read_write_method self "read".
Definition read32 := λ self, _read_write_method self "read32".
Definition write := λ self, _read_write_method self "write".

Definition clear (self : t) : t := {| _mu := FakeMemoryUnit.clear <$> _mu self |}.

End FakeMemory.

(** ** class FakeMemoryItf *)

(** The module [srec_util] (imported as [SRec]) is not part of this
    repository: its two entry points are parameters of the development.
    Both are Python functions and may raise. *)
Class SRec : Type := {
  parse_srec : string → result (string * string * string * string * string);
  validate_srec_checksum : string → result bool
}.

(** The builtin [int(x, 16)], a parameter as well. *)
Class Builtins : Type := {
  int16 : string → result Z
}.

(** [s.strip()] *)
Fixpoint lstrip (s : string) : string :=
  match s with
  | String c s' => if Ascii.is_space c then lstrip s' else s
  | EmptyString => EmptyString
  end.

Definition strip (s : string) : string :=
  String.rev (lstrip (String.rev (lstrip s))).

Module FakeMemoryItf.

Record t : Type := Build { _m : FakeMemory.t }.

(** The logger is not modelled. *)
Definition __init__ : t :=
  {| _m := (FakeMemory.add_range FakeMemory.__init__ 0x10000000 (1024 * 1024) "Flash").2 |}.

Definition cmd_erase_memory (self : t) : result bool * t :=
  (Return true, {| _m := FakeMemory.clear (_m self) |}).

Section cmd_write_srec.
Context `{SRec, Builtins}.

(** The branch [rtype == 'S3']. *)
Definition write_data (self : t) (addr : Z) (data : string) : result bool * t :=
  match (chunks ← helpers.chunker data 2; mapM int16 chunks) with
  | Raise e => (Raise e, self)
  | Return data =>
      let '(r, m) := FakeMemory.write (_m self) addr (PyList data) false in
      ((λ _, true) <$> r, {| _m := m |})
  end.

Definition cmd_write_srec (self : t) (srec : string) : result bool * t :=
  match (fields ← parse_srec srec;
         let '(rtype, rlen, addr, data, chk) := fields in
         addr ← int16 addr;
         valid ← validate_srec_checksum (strip srec);
         Return (rtype, addr, data, valid)) with
  | Raise e => (Raise e, self)
  | Return (rtype, addr, data, valid) =>
      if negb valid then (Return false, self)
      else if String.eqb rtype "S0" then (Return true, self)
      else if String.eqb rtype "S3" then write_data self addr data
      else if String.eqb rtype "S7" then (Return true, self)
      else (Raise (NotImplementedError rtype), self)
  end.
End cmd_write_srec.

End FakeMemoryItf.

Module FMU := FakeMemoryUnit.
Module FM := FakeMemory.

(** * Vocabulary of the statements *)

(** What every unit satisfies from its construction on: [range] is the
    interval from [start()] to [end()], and the data array has at least
    [length] bytes. *)
Record unit_ok (mu : FMU.t) : Prop := {
  range_ok :
    FMU.range mu = helpers.CustomRange.__init__ (FMU.start mu) (FMU.end_ mu);
  data_covers : FMU.length mu ≤ Z.of_nat (length (FMU._data mu))
}.

(** The units a program can build: a constructed unit, modified by any
    sequence of calls to [write] and [clear] ([read] and [read32] do not
    modify the unit). *)
Inductive reachable : FMU.t → Prop :=
| reachable_init addr_start len description :
    reachable (FMU.__init__ addr_start len description)
| reachable_write mu address value no_error :
    reachable mu → reachable (FMU.write mu address value no_error).2
| reachable_clear mu :
    reachable mu → reachable (FMU.clear mu).

(** A requested range is the pair of its start address and its length. *)
Definition last_address (p : Z * Z) : Z := p.1 + p.2 - 1.

(** The inclusive intervals of two requested ranges do not intersect. *)
Definition disjoint (p q : Z * Z) : Prop :=
  last_address p < q.1 ∨ last_address q < p.1.

(** [disjoint] is symmetric, so it is enough to relate every range to the
    ranges that follow it in the list; a range that occurs twice is not
    pairwise disjoint. *)
Definition pairwise_disjoint (pairs : list (Z * Z)) : Prop :=
  ForallOrdPairs disjoint pairs.

(** A client that calls [add_range] for each requested range in turn and
    stops at the first call that raises. *)
Fixpoint add_ranges (m : FM.t) (pairs : list (Z * Z)) : result () * FM.t :=
  match pairs with
  | [] => (Return (), m)
  | (addr_start, len) :: pairs =>
      match FM.add_range m addr_start len "" with
      | (Return _, m') => add_ranges m' pairs
      | (Raise e, m') => (Raise e, m')
      end
  end.

(** The requested range a unit was built from. *)
Definition request_of (mu : FMU.t) : Z * Z := (FMU.start mu, FMU.length mu).

Definition before (u v : FMU.t) : Prop := FMU.end_ u < FMU.start v.

(** The invariant of the list of units: every unit is well formed and not
    empty, and every unit ends before every later unit starts. *)
Record units_ok (units : list FMU.t) : Prop := {
  units_unit_ok : Forall unit_ok units;
  units_positive : Forall (λ u, 0 < FMU.length u) units;
  units_sorted : StronglySorted before units
}.

(** ** A sample S-record collaborator

    [srec_util] and [int] are parameters of [cmd_write_srec]. To evaluate
    the statements about it on concrete lines, the parameters are
    instantiated with a plain reading of the S-record format: two
    characters of type, two of byte count, an address whose width depends on
    the type, the data, and a checksum that makes the bytes from the count
    on add up to 0xFF modulo 256. *)

Definition hex_digit (c : Ascii.ascii) : option Z :=
  let n := Z.of_N (Ascii.N_of_ascii c) in
  if (48 <=? n) && (n <=? 57) then Some (n - 48)
  else if (65 <=? n) && (n <=? 70) then Some (n - 55)
  else if (97 <=? n) && (n <=? 102) then Some (n - 87)
  else None.

Fixpoint hex_value_from (acc : Z) (s : string) : option Z :=
  match s with
  | EmptyString => Some acc
  | String c s' =>
      match hex_digit c with
      | Some d => hex_value_from (16 * acc + d) s'
      | None => None
      end
  end.

Definition hex_value (s : string) : result Z :=
  match s with
  | EmptyString => Raise ValueError_int
  | _ => match hex_value_from 0 s with
         | Some n => Return n
         | None => Raise ValueError_int
         end
  end.

Definition sample_addr_len (rtype : string) : option nat :=
  if String.eqb rtype "S0" || String.eqb rtype "S1"
     || String.eqb rtype "S5" || String.eqb rtype "S9" then Some 2%nat
  else if String.eqb rtype "S2" || String.eqb rtype "S8" then Some 3%nat
  else if String.eqb rtype "S3" || String.eqb rtype "S7" then Some 4%nat
  else None.

Definition sample_parse_srec (srec : string)
  : result (string * string * string * string * string) :=
  let rtype := String.substring 0 2 srec in
  match sample_addr_len rtype with
  | None => Raise (ExternalError "unknown record type")
  | Some n =>
      let data_start := (4 + 2 * n)%nat in
      let chk_start := (String.length srec - 2)%nat in
      Return (rtype, String.substring 2 2 srec, String.substring 4 (2 * n) srec,
              String.substring data_start (chk_start - data_start) srec,
              String.substring chk_start 2 srec)
  end.

Definition sample_validate_srec_checksum (srec : string) : result bool :=
  chunks ← helpers.chunker (String.substring 2 (String.length srec - 2) srec) 2;
  bytes ← mapM hex_value chunks;
  Return (bool_decide (foldr Z.add 0 bytes `mod` 256 = 255)).

Definition sample_srec : SRec :=
  {| parse_srec := sample_parse_srec;
     validate_srec_checksum := sample_validate_srec_checksum |}.

Definition sample_builtins : Builtins := {| int16 := hex_value |}.

(** A small interface state: one unit of 256 bytes at the base address of
    the flash. *)
Definition sample_itf : FakeMemoryItf.t :=
  {| FakeMemoryItf._m := (FM.add_range FM.__init__ 0x10000000 0x100 "Flash").2 |}.

(** ** Vocabulary of the further properties *)

(** The bytes a block read returns when every address is read leniently,
    or when every address lies inside the unit. *)
Definition stored_or_zero (mu : FMU.t) (address : Z) : Z :=
  if bool_decide (FMU.start mu ≤ address ≤ FMU.end_ mu)
  then default 0 (FMU._data mu !! Z.to_nat (address - FMU.start mu))
  else 0.

(** The states of the interface a program can reach: the constructed
    interface, after any sequence of erase commands and of S-record lines,
    whatever the outcome of each command. *)
Inductive itf_reachable `{SRec, Builtins} : FakeMemoryItf.t → Prop :=
| itf_reachable_init :
    itf_reachable FakeMemoryItf.__init__
| itf_reachable_erase self :
    itf_reachable self → itf_reachable (FakeMemoryItf.cmd_erase_memory self).2
| itf_reachable_write_srec self srec :
    itf_reachable self → itf_reachable (FakeMemoryItf.cmd_write_srec self srec).2.

(** A decoder of plain decimal literals, to instantiate the parameter
    [int10] of [ip_to_bin] on concrete inputs. *)
Fixpoint dec_value_from (acc : Z) (s : string) : option Z :=
  match s with
  | EmptyString => Some acc
  | String c s' =>
      let n := Z.of_N (Ascii.N_of_ascii c) in
      if (48 <=? n) && (n <=? 57) then dec_value_from (10 * acc + (n - 48)) s'
      else None
  end.

Definition dec_value (s : string) : option Z :=
  match s with
  | EmptyString => None
  | _ => dec_value_from 0 s
  end.

(** * Properties *)

(** ** Results and byte arrays *)

Lemma contains_spec (r : helpers.CustomRange.t) (x : Z) :
  x in_range r = true ↔ helpers.CustomRange.start r ≤ x ≤ helpers.CustomRange.stop r.
Proof. unfold helpers.CustomRange.__contains__. rewrite andb_true_iff. lia. Qed.

Lemma contains_false (r : helpers.CustomRange.t) (x : Z) :
  x in_range r = false ↔ ¬ (helpers.CustomRange.start r ≤ x ≤ helpers.CustomRange.stop r).
Proof. rewrite <- contains_spec. destruct (x in_range r); naive_solver. Qed.

Lemma mapM_Return {A B} (f : A → result B) (l : list A) (k : list B) :
  Forall2 (λ x y, f x = Return y) l k → mapM f l = Return k.
Proof.
  unfold mapM. induction 1 as [|x y l k Hxy _ IH]; [done|].
  simpl. rewrite Hxy. simpl. rewrite IH. done.
Qed.

Lemma byte_ok_spec (v : Z) : byte_ok v = true ↔ 0 ≤ v < 256.
Proof. unfold byte_ok. rewrite andb_true_iff. lia. Qed.

Lemma forallb_byte_ok (vs : list Z) :
  forallb byte_ok vs = true ↔ Forall (λ v, 0 ≤ v < 256) vs.
Proof.
  induction vs as [|v vs IH]; simpl.
  - split; [constructor|done].
  - rewrite andb_true_iff, Forall_cons, IH, byte_ok_spec. done.
Qed.

Lemma norm_index_inside (b : bytearray) (i : Z) :
  0 ≤ i < Z.of_nat (length b) → norm_index b i = Return (Z.to_nat i).
Proof.
  intros Hi. unfold norm_index. cbv zeta.
  assert ((i <? 0) = false) as Hneg by lia.
  assert ((Z.of_nat (length b) <=? i) = false) as Hge by lia.
  rewrite Hneg. cbv iota. by rewrite Hneg, Hge.
Qed.

Lemma getitem_inside (b : bytearray) (i : Z) :
  0 ≤ i < Z.of_nat (length b) →
  ∃ v, getitem b i = Return v ∧ b !! Z.to_nat i = Some v.
Proof.
  intros Hi. unfold getitem. rewrite norm_index_inside by done.
  unfold mbind, result_bind.
  destruct (lookup_lt_is_Some_2 b (Z.to_nat i)) as [v Hv]; [lia|].
  exists v. by rewrite Hv.
Qed.

Lemma setitem_length (b d : bytearray) (i : Z) (v : pyval) :
  setitem b i v = Return d → length d = length b.
Proof.
  unfold setitem. destruct (norm_index b i) as [k|]; cbn; [|done].
  destruct v as [|n|]; try done.
  destruct (byte_ok n); [|done]. intros [= <-]. apply length_insert.
Qed.

Lemma clip_nonneg (len i : Z) : 0 ≤ i → clip len i = Z.min i len.
Proof. intros Hi. unfold clip. by rewrite (proj2 (Z.ltb_ge i 0)). Qed.

(** A slice assignment that starts inside the array never shortens it, and
    lengthens it exactly when the values run past its end. *)
Lemma setslice_length (b d : bytearray) (i : Z) (vs : list Z) :
  0 ≤ i ≤ Z.of_nat (length b) →
  setslice b i (i + Z.of_nat (length vs)) vs = Return d →
  Z.of_nat (length d) = Z.max (Z.of_nat (length b)) (i + Z.of_nat (length vs)).
Proof.
  intros Hi. unfold setslice. destruct (forallb byte_ok vs); [|done].
  cbv zeta. intros [= <-]. rewrite !length_app, length_take, length_drop.
  rewrite !clip_nonneg by lia. lia.
Qed.

Lemma setslice_inside (b : bytearray) (i : Z) (vs : list Z) :
  0 ≤ i → i + Z.of_nat (length vs) ≤ Z.of_nat (length b) →
  Forall (λ v, 0 ≤ v < 256) vs →
  setslice b i (i + Z.of_nat (length vs)) vs =
    Return (take (Z.to_nat i) b ++ vs ++ drop (Z.to_nat i + length vs) b).
Proof.
  intros Hi Hj Hvs. unfold setslice.
  rewrite (proj2 (forallb_byte_ok vs) Hvs). cbv zeta.
  rewrite !clip_nonneg by lia.
  do 2 f_equal; [f_equal; lia | do 2 f_equal; lia].
Qed.

(** ** FakeMemoryUnit *)

Lemma init_ok (addr_start len : Z) (description : string) :
  unit_ok (FMU.__init__ addr_start len description).
Proof.
  split; [done|]. cbn. unfold zeroes. rewrite length_replicate. lia.
Qed.

Lemma clear_ok (mu : FMU.t) : unit_ok mu → unit_ok (FMU.clear mu).
Proof.
  intros [Hr _]. split; [done|].
  cbn. unfold zeroes. rewrite length_replicate. lia.
Qed.

Lemma get_address_inside (mu : FMU.t) (address : Z) :
  unit_ok mu → FMU.start mu ≤ address ≤ FMU.end_ mu →
  FMU._get_address mu address = Return (address - FMU.start mu).
Proof.
  intros [Hr _] Ha. unfold FMU._get_address.
  rewrite (proj2 (contains_spec _ _)); [done|]. by rewrite Hr.
Qed.

Lemma get_address_outside (mu : FMU.t) (address : Z) :
  unit_ok mu → ¬ (FMU.start mu ≤ address ≤ FMU.end_ mu) →
  FMU._get_address mu address = Raise (IOError_out_of_range address).
Proof.
  intros [Hr _] Ha. unfold FMU._get_address.
  rewrite (proj2 (contains_false _ _)); [done|]. by rewrite Hr.
Qed.

Lemma get_address_Return (mu : FMU.t) (address i : Z) :
  unit_ok mu → FMU._get_address mu address = Return i →
  i = address - FMU.start mu ∧ 0 ≤ i < FMU.length mu.
Proof.
  intros [Hr _]. unfold FMU._get_address.
  destruct (address in_range FMU.range mu) eqn:Hin; [|done].
  apply contains_spec in Hin. rewrite Hr in Hin. cbn in Hin.
  intros [= <-]. unfold FMU.end_ in Hin. lia.
Qed.

Lemma write_ok (mu : FMU.t) (address : Z) (value : pyval) (no_error : bool) :
  unit_ok mu → unit_ok (FMU.write mu address value no_error).2.
Proof.
  intros Hok. unfold FMU.write.
  destruct (FMU._get_address mu address) as [i|e] eqn:Hget; cbn.
  - apply get_address_Return in Hget as [-> Hi]; [|done].
    destruct Hok as [Hr Hc].
    assert (∀ d, length (FMU._data mu) ≤ length d → unit_ok (FMU.with_data mu d))%nat
      as Hgrow by (intros d Hd; split; [done|cbn; lia]).
    destruct value as [|n|l].
    + destruct (setitem _ _ _) as [d|e] eqn:Hset; [|by destruct e, no_error].
      apply Hgrow. by rewrite (setitem_length _ _ _ _ Hset).
    + destruct (setitem _ _ _) as [d|e] eqn:Hset; [|by destruct e, no_error].
      apply Hgrow. by rewrite (setitem_length _ _ _ _ Hset).
    + destruct (setslice _ _ _ _) as [d|e] eqn:Hset; [|by destruct e, no_error].
      apply Hgrow. apply setslice_length in Hset; lia.
  - by destruct e, no_error.
Qed.

Lemma reachable_ok (mu : FMU.t) : reachable mu → unit_ok mu.
Proof. induction 1; auto using init_ok, write_ok, clear_ok. Qed.

Lemma read_inside (mu : FMU.t) (address : Z) (no_error : bool) :
  unit_ok mu → FMU.start mu ≤ address ≤ FMU.end_ mu →
  ∃ v, FMU.read mu address no_error = Return v ∧
       FMU._data mu !! Z.to_nat (address - FMU.start mu) = Some v.
Proof.
  intros Hok Ha. unfold FMU.read. rewrite get_address_inside by done.
  unfold mbind, result_bind.
  destruct (getitem_inside (FMU._data mu) (address - FMU.start mu))
    as (v & Hget & Hv).
  { pose proof (data_covers _ Hok). unfold FMU.end_ in Ha. lia. }
  rewrite Hget. eauto.
Qed.

Lemma read_outside (mu : FMU.t) (address : Z) (no_error : bool) :
  unit_ok mu → ¬ (FMU.start mu ≤ address ≤ FMU.end_ mu) →
  FMU.read mu address no_error =
    if no_error then Return 0 else Raise (IOError_out_of_range address).
Proof.
  intros Hok Ha. unfold FMU.read. by rewrite get_address_outside.
Qed.

(** A block write all of whose addresses are inside the unit replaces
    exactly the addressed bytes. *)
Lemma write_block_inside (mu : FMU.t) (address : Z) (bs : list Z) (no_error : bool) :
  unit_ok mu → Forall (λ b, 0 ≤ b < 256) bs →
  FMU.start mu ≤ address ≤ FMU.end_ mu →
  address + Z.of_nat (length bs) - 1 ≤ FMU.end_ mu →
  let i := Z.to_nat (address - FMU.start mu) in
  FMU.write mu address (PyList bs) no_error =
    (Return (), FMU.with_data mu (take i (FMU._data mu) ++ bs ++
                                  drop (i + length bs) (FMU._data mu))).
Proof.
  intros Hok Hbs Ha Hlast i. unfold FMU.write.
  rewrite get_address_inside by done. unfold mbind, result_bind.
  pose proof (data_covers _ Hok). unfold FMU.end_ in *.
  rewrite setslice_inside by (done || lia). done.
Qed.

(** A write whose first address is outside the unit changes nothing. *)
Lemma write_first_address_outside (mu : FMU.t) (address : Z) (value : pyval)
    (no_error : bool) :
  unit_ok mu → ¬ (FMU.start mu ≤ address ≤ FMU.end_ mu) →
  FMU.write mu address value no_error =
    (if no_error then Return () else Raise (IOError_out_of_range address), mu).
Proof.
  intros Hok Ha. unfold FMU.write. rewrite get_address_outside by done.
  by destruct no_error.
Qed.

(** A block write with a value outside [0, 255] changes nothing, wherever
    the block ends. *)
Lemma write_block_bad_byte (mu : FMU.t) (address : Z) (bs : list Z) (no_error : bool) :
  unit_ok mu → FMU.start mu ≤ address ≤ FMU.end_ mu →
  ¬ Forall (λ b, 0 ≤ b < 256) bs →
  FMU.write mu address (PyList bs) no_error =
    (if no_error then Return () else Raise ValueError_byte, mu).
Proof.
  intros Hok Ha Hbs. unfold FMU.write. rewrite get_address_inside by done.
  unfold mbind, result_bind, setslice.
  destruct (forallb byte_ok bs) eqn:Hall.
  - by apply forallb_byte_ok in Hall.
  - by destruct no_error.
Qed.

(** A single-byte write with a value outside [0, 255] changes nothing. *)
Lemma write_byte_bad_value (mu : FMU.t) (address n : Z) (no_error : bool) :
  unit_ok mu → FMU.start mu ≤ address ≤ FMU.end_ mu → ¬ (0 ≤ n < 256) →
  FMU.write mu address (PyInt n) no_error =
    (if no_error then Return () else Raise ValueError_byte, mu).
Proof.
  intros Hok Ha Hn. unfold FMU.write. rewrite get_address_inside by done.
  unfold mbind, result_bind, setitem.
  pose proof (data_covers _ Hok). unfold FMU.end_ in Ha.
  rewrite norm_index_inside by lia.
  destruct (byte_ok n) eqn:Hb.
  - by apply byte_ok_spec in Hb.
  - by destruct no_error.
Qed.

(** The defect behind the failures of the size invariant: only the first
    address of a block write is translated, so a block that starts inside
    the unit and runs past its end is stored, and the data array grows by
    the bytes that do not fit. *)
Lemma write_block_past_end (mu : FMU.t) (address : Z) (bs : list Z) (no_error : bool) :
  unit_ok mu → Forall (λ b, 0 ≤ b < 256) bs →
  Z.of_nat (length (FMU._data mu)) = FMU.length mu →
  FMU.start mu ≤ address ≤ FMU.end_ mu →
  FMU.end_ mu < address + Z.of_nat (length bs) - 1 →
  ∃ mu', FMU.write mu address (PyList bs) no_error = (Return (), mu') ∧
         Z.of_nat (length (FMU._data mu')) =
           address - FMU.start mu + Z.of_nat (length bs) ∧
         FMU.length mu' = FMU.length mu.
Proof.
  intros Hok Hbs Hsize Ha Hlast. unfold FMU.write.
  rewrite get_address_inside by done. unfold mbind, result_bind.
  unfold FMU.end_ in *.
  destruct (setslice _ _ _ _) as [d|e] eqn:Hset.
  - eexists. split; [done|]. split; [|done]. cbn.
    apply setslice_length in Hset; lia.
  - unfold setslice in Hset.
    rewrite (proj2 (forallb_byte_ok bs) Hbs) in Hset. done.
Qed.

(** C9. For a unit spanning [S, S+L-1] (with the positive length of the
    data model), [_get_address] returns [address - S] when
    [S <= address <= S+L-1] and raises the out-of-range [IOError] naming the
    address otherwise; reading at [S-1] and at [S+L] raises that error in
    the default mode and returns 0 with [no_error] set; reading at [S] and at
    [S+L-1] returns the first and the last byte of the data. *)
Theorem translate_and_boundary_reads (mu : FMU.t) (S L : Z) :
  unit_ok mu → FMU.start mu = S → FMU.length mu = L → 0 < L →
  (∀ address, S ≤ address ≤ S + L - 1 →
     FMU._get_address mu address = Return (address - S)) ∧
  (∀ address, ¬ (S ≤ address ≤ S + L - 1) →
     FMU._get_address mu address = Raise (IOError_out_of_range address)) ∧
  FMU.read mu (S - 1) false = Raise (IOError_out_of_range (S - 1)) ∧
  FMU.read mu (S - 1) true = Return 0 ∧
  FMU.read mu (S + L) false = Raise (IOError_out_of_range (S + L)) ∧
  FMU.read mu (S + L) true = Return 0 ∧
  (∀ no_error, ∃ v, FMU.read mu S no_error = Return v ∧
                    FMU._data mu !! 0%nat = Some v) ∧
  (∀ no_error, ∃ v, FMU.read mu (S + L - 1) no_error = Return v ∧
                    FMU._data mu !! Z.to_nat (L - 1) = Some v).
Proof.
  intros Hok <- <- HL.
  assert (FMU.end_ mu = FMU.start mu + FMU.length mu - 1) as Hend by done.
  split_and!.
  - intros address Ha. apply get_address_inside; [done|lia].
  - intros address Ha. apply get_address_outside; [done|lia].
  - rewrite read_outside; [done..|lia].
  - rewrite read_outside; [done..|lia].
  - rewrite read_outside; [done..|lia].
  - rewrite read_outside; [done..|lia].
  - intros no_error.
    destruct (read_inside mu (FMU.start mu) no_error) as (v & Hr & Hv);
      [done|lia|].
    exists v. split; [done|]. by rewrite Z.sub_diag in Hv.
  - intros no_error.
    destruct (read_inside mu (FMU.start mu + FMU.length mu - 1) no_error)
      as (v & Hr & Hv); [done|lia|].
    exists v. split; [done|]. rewrite <- Hv. f_equal. lia.
Qed.

Lemma translate_and_boundary_reads_witness :
  let mu := FMU.__init__ 0x10 1024 "" in
  FMU._get_address mu 0x11 = Return 1 ∧
  FMU.read mu 0x0F false = Raise (IOError_out_of_range 0x0F) ∧
  FMU.read mu 0x410 true = Return 0 ∧
  ∃ v, FMU.read mu 0x40F false = Return v.
Proof.
  intros mu.
  destruct (translate_and_boundary_reads mu 0x10 1024)
    as (Hin & _ & Hlo & _ & _ & Hhi & _ & Hlast).
  - split; [reflexivity|vm_compute; discriminate].
  - reflexivity.
  - reflexivity.
  - lia.
  - split; [apply (Hin 0x11); lia|]. split; [exact Hlo|]. split; [exact Hhi|].
    destruct (Hlast false) as (v & Hv & _). exists v. exact Hv.
Defined.

(** C8. Writing a sequence of N bytes at an address A such that the
    interval from A to A+N-1 lies inside the unit, and then reading N bytes
    from A, returns the sequence written; with N = 32 the read is
    [read32]. *)
Theorem write_then_read_block (mu : FMU.t) (A : Z) (bs : list Z)
    (no_error no_error' : bool) :
  unit_ok mu → Forall (λ b, 0 ≤ b < 256) bs →
  FMU.start mu ≤ A ≤ FMU.end_ mu →
  FMU.start mu ≤ A + Z.of_nat (length bs) - 1 ≤ FMU.end_ mu →
  ∃ mu', FMU.write mu A (PyList bs) no_error = (Return (), mu') ∧
         FMU.read_block mu' A (Z.of_nat (length bs)) no_error' = Return bs ∧
         (length bs = 32%nat → FMU.read32 mu' A no_error' = Return bs).
Proof.
  intros Hok Hbs HA Hlast.
  pose proof (data_covers _ Hok) as Hcov.
  eexists. split; [apply write_block_inside; (done || lia)|].
  set (i := Z.to_nat (A - FMU.start mu)).
  set (d := take i (FMU._data mu) ++ bs ++ drop (i + length bs) (FMU._data mu)).
  assert (length (take i (FMU._data mu)) = i) as Htake.
  { rewrite length_take. unfold FMU.end_ in *. lia. }
  assert (unit_ok (FMU.with_data mu d)) as Hok'.
  { split; [apply (range_ok _ Hok)|]. cbn. unfold d.
    rewrite !length_app, Htake, length_drop. lia. }
  assert (FMU.read_block (FMU.with_data mu d) A (Z.of_nat (length bs)) no_error'
          = Return bs) as Hread.
  { apply mapM_Return, Forall2_same_length_lookup_2.
    - rewrite length_seqZ. lia.
    - intros k x y [-> Hk]%lookup_seqZ Hy.
      destruct (read_inside (FMU.with_data mu d) (A + Z.of_nat k) no_error')
        as (v & Hr & Hv); [done| |].
      { change (FMU.start mu ≤ A + Z.of_nat k ≤ FMU.end_ mu). lia. }
      rewrite Hr. f_equal.
      change (FMU.start (FMU.with_data mu d)) with (FMU.start mu) in Hv.
      change (FMU._data (FMU.with_data mu d)) with d in Hv.
      replace (Z.to_nat (A + Z.of_nat k - FMU.start mu))
        with (length (take i (FMU._data mu)) + k)%nat in Hv
        by (rewrite Htake; unfold i; lia).
      unfold d in Hv.
      rewrite lookup_app_r, Nat.add_comm, Nat.add_sub in Hv by lia.
      rewrite lookup_app_l in Hv by lia. congruence. }
  split; [done|]. intros H32. unfold FMU.read32.
  by replace 32 with (Z.of_nat (length bs)) by lia.
Qed.

Lemma write_then_read_block_witness :
  let mu := FMU.__init__ 0x10 1024 "" in
  ∃ mu', FMU.write mu 0x20 (PyList [0xAA; 0xBB; 0xCC]) false = (Return (), mu') ∧
         FMU.read_block mu' 0x20 3 false = Return [0xAA; 0xBB; 0xCC].
Proof.
  intros mu.
  destruct (write_then_read_block mu 0x20 [0xAA; 0xBB; 0xCC] false false)
    as (mu' & Hw & Hr & _).
  - split; [reflexivity|vm_compute; discriminate].
  - repeat constructor; lia.
  - vm_compute. split; discriminate.
  - vm_compute. split; discriminate.
  - exists mu'. split; [exact Hw | exact Hr].
Defined.

(** *** The size of the data array *)

Lemma init_size (addr_start len : Z) (description : string) :
  0 ≤ len →
  Z.of_nat (length (FMU._data (FMU.__init__ addr_start len description))) = len.
Proof. intros Hlen. cbn. unfold zeroes. rewrite length_replicate. lia. Qed.

Lemma clear_size (mu : FMU.t) :
  0 ≤ FMU.length mu →
  Z.of_nat (length (FMU._data (FMU.clear mu))) = FMU.length (FMU.clear mu).
Proof. intros Hlen. cbn. unfold zeroes. rewrite length_replicate. lia. Qed.

Lemma write_byte_size (mu : FMU.t) (address n : Z) (no_error : bool) :
  length (FMU._data (FMU.write mu address (PyInt n) no_error).2)
  = length (FMU._data mu).
Proof.
  unfold FMU.write.
  destruct (FMU._get_address mu address) as [i|e]; cbn; [|by destruct e, no_error].
  destruct (setitem _ _ _) as [d|e] eqn:Hset; [|by destruct e, no_error].
  by rewrite <- (setitem_length _ _ _ _ Hset).
Qed.

Lemma write_block_size_inside (mu : FMU.t) (address : Z) (bs : list Z)
    (no_error : bool) :
  unit_ok mu → FMU.start mu ≤ address ≤ FMU.end_ mu →
  address + Z.of_nat (length bs) - 1 ≤ FMU.end_ mu →
  length (FMU._data (FMU.write mu address (PyList bs) no_error).2)
  = length (FMU._data mu).
Proof.
  intros Hok Ha Hlast. pose proof (data_covers _ Hok) as Hcov.
  destruct (decide (Forall (λ b, 0 ≤ b < 256) bs)) as [Hbs|Hbs].
  - rewrite write_block_inside by done. cbn.
    rewrite !length_app, length_take, length_drop. unfold FMU.end_ in *. lia.
  - by rewrite write_block_bad_byte.
Qed.

(** C2 (defect in [write]). A block write is range-checked at its first
    address only. In a unit at 0x10 of 4 bytes, which ends at 0x13, writing
    five bytes at 0x12 covers 0x14 to 0x16, outside the unit: the write
    returns normally, with or without [no_error], and stores all five
    bytes. *)
Theorem write_block_past_end_not_rejected :
  let mu := FMU.__init__ 0x10 4 "" in
  FMU.end_ mu = 0x13 ∧
  FMU.write mu 0x12 (PyList [1; 2; 3; 4; 5]) false
    = (Return (), FMU.with_data mu [0; 0; 1; 2; 3; 4; 5]) ∧
  FMU.write mu 0x12 (PyList [1; 2; 3; 4; 5]) true
    = (Return (), FMU.with_data mu [0; 0; 1; 2; 3; 4; 5]).
Proof. by vm_compute. Qed.

(** C3 (defect in [write]). The data array of a unit of 4 bytes has 4
    bytes after construction; after writing five bytes at its third address
    it has 7 bytes, while [length] is still 4. *)
Theorem size_invariant_broken_by_block_write :
  let mu := FMU.__init__ 0x10 4 "" in
  let mu' := (FMU.write mu 0x12 (PyList [1; 2; 3; 4; 5]) false).2 in
  Z.of_nat (length (FMU._data mu)) = FMU.length mu ∧
  FMU.length mu' = 4 ∧
  length (FMU._data mu') = 7%nat.
Proof. by vm_compute. Qed.

(** ** FakeMemory *)

Lemma add_range_Raise_unchanged (m : FM.t) (addr_start len : Z)
    (description : string) (e : exn) :
  (FM.add_range m addr_start len description).1 = Raise e →
  (FM.add_range m addr_start len description).2 = m.
Proof.
  unfold FM.add_range.
  by destruct (_ ← FM.find_position _ _ _; _) as [pos_idx|e'].
Qed.

(** The exception raised by [add_range] is always the overlap error. *)
Lemma add_range_Raise_overlap (m : FM.t) (addr_start len : Z)
    (description : string) (e : exn) :
  (FM.add_range m addr_start len description).1 = Raise e →
  e = ValueError_overlap.
Proof.
  unfold FM.add_range.
  set (new_mu := FMU.__init__ addr_start len description).
  assert (∀ units k e', FM.find_position new_mu units k = Raise e' →
                        e' = ValueError_overlap) as Hfind.
  { induction units as [|fmu units IH]; intros k e'; simpl; [done|].
    repeat case_match; naive_solver. }
  destruct (FM.find_position new_mu (FM._mu m) 0) as [pos_idx|e'] eqn:Hpos.
  - unfold mbind, result_bind, FM.check_next.
    repeat case_match; naive_solver.
  - apply Hfind in Hpos as ->. cbn. congruence.
Qed.

(** What [add_range] does reject in a well-formed map: every candidate one
    of whose end points lies in an existing unit. The first lemma is the
    case of the start address, found by the loop; the second the case of
    the end address, found by the loop or by the check that follows it. *)
Lemma find_position_start_inside (new_mu : FMU.t) (units : list FMU.t) (k : nat) :
  units_ok units →
  Exists (λ u, FMU.start u ≤ FMU.start new_mu ≤ FMU.end_ u) units →
  FM.find_position new_mu units k = Raise ValueError_overlap.
Proof.
  intros [Hok Hpos Hsorted] Hex. revert k.
  induction units as [|fmu units IH]; intros k; [by apply Exists_nil in Hex|].
  apply Forall_cons in Hok as [Hfmu Hok].
  apply Forall_cons in Hpos as [Hlen Hpos].
  apply StronglySorted_cons in Hsorted as [Hlater Hsorted].
  simpl.
  destruct (FMU.start new_mu in_range FMU.range fmu) eqn:Hs; [done|].
  destruct (FMU.end_ new_mu in_range FMU.range fmu) eqn:He; [done|]. simpl.
  apply contains_false in Hs. rewrite (range_ok _ Hfmu) in Hs. cbn in Hs.
  apply Exists_cons in Hex as [Hhere|Hex]; [done|].
  assert ((FMU.start new_mu <? FMU.start fmu) = false) as ->.
  { apply Exists_exists in Hex as (u & Hu & Hin).
    apply (proj1 (Forall_forall _ _) Hlater) in Hu.
    apply Z.ltb_ge. unfold before, FMU.end_ in *. lia. }
  by apply IH.
Qed.

Lemma find_position_end_inside (new_mu : FMU.t) (prefix units : list FMU.t) :
  units_ok units →
  Exists (λ u, FMU.start u ≤ FMU.end_ new_mu ≤ FMU.end_ u) units →
  match FM.find_position new_mu units (length prefix) with
  | Raise e => e = ValueError_overlap
  | Return p => FM.check_next new_mu (prefix ++ units) p = Raise ValueError_overlap
  end.
Proof.
  intros [Hok Hpos Hsorted] Hex. revert prefix.
  induction units as [|fmu units IH]; intros prefix; [by apply Exists_nil in Hex|].
  apply Forall_cons in Hok as [Hfmu Hok].
  apply Forall_cons in Hpos as [Hlen Hpos].
  apply StronglySorted_cons in Hsorted as [Hlater Hsorted].
  simpl.
  destruct (FMU.start new_mu in_range FMU.range fmu) eqn:Hs; [done|].
  destruct (FMU.end_ new_mu in_range FMU.range fmu) eqn:He; [done|]. simpl.
  apply contains_false in He. rewrite (range_ok _ Hfmu) in He. cbn in He.
  apply Exists_cons in Hex as [Hhere|Hex]; [done|].
  destruct (FMU.start new_mu <? FMU.start fmu) eqn:Hlt.
  - unfold FM.check_next.
    destruct units as [|next_mu units]; [by apply Exists_nil in Hex|].
    rewrite lookup_app_r by lia.
    replace (length prefix + 1 - length prefix)%nat with 1%nat by lia. simpl.
    assert (FMU.start next_mu ≤ FMU.end_ new_mu) as Hreach.
    { apply Exists_cons in Hex as [Hhere|Hex]; [lia|].
      apply Exists_exists in Hex as (u & Hu & Hin).
      apply StronglySorted_cons in Hsorted as [Hnext _].
      apply (proj1 (Forall_forall _ _) Hnext) in Hu.
      apply Forall_cons in Hpos as [Hlen' _].
      unfold before, FMU.end_ in *. lia. }
    by rewrite (proj2 (Z.geb_le _ _) Hreach).
  - specialize (IH Hok Hpos Hsorted Hex (prefix ++ [fmu])).
    rewrite length_app, Nat.add_1_r, <- app_assoc in IH. exact IH.
Qed.

Lemma add_range_rejects_end_point_overlap (m : FM.t) (addr_start len : Z)
    (description : string) :
  units_ok (FM._mu m) →
  Exists (λ u, FMU.start u ≤ addr_start ≤ FMU.end_ u
               ∨ FMU.start u ≤ addr_start + len - 1 ≤ FMU.end_ u) (FM._mu m) →
  FM.add_range m addr_start len description = (Raise ValueError_overlap, m).
Proof.
  intros Hunits Hex. unfold FM.add_range.
  set (new_mu := FMU.__init__ addr_start len description).
  apply Exists_exists in Hex as (u & Hu & [Hstart|Hend]).
  - rewrite (find_position_start_inside new_mu _ 0 Hunits); [done|].
    apply Exists_exists. by exists u.
  - assert (Exists (λ u, FMU.start u ≤ FMU.end_ new_mu ≤ FMU.end_ u) (FM._mu m))
      as Hex by (apply Exists_exists; by exists u).
    pose proof (find_position_end_inside new_mu [] (FM._mu m) Hunits Hex) as Hfind.
    simpl in Hfind. unfold mbind, result_bind.
    destruct (FM.find_position new_mu (FM._mu m) 0) as [p|e].
    + by rewrite Hfind.
    + by rewrite Hfind.
Qed.

(** What it does not reject: a candidate that starts before the only unit
    of the map and ends after it. *)
Lemma add_range_accepts_enclosing (S L addr_start len : Z) (d d' : string) :
  0 < L → addr_start < S → S + L - 1 < addr_start + len - 1 →
  FM.add_range {| FM._mu := [FMU.__init__ S L d] |} addr_start len d' =
    (Return (), {| FM._mu := [FMU.__init__ addr_start len d'; FMU.__init__ S L d] |}).
Proof.
  intros HL Hstart Hend. unfold FM.add_range. simpl.
  rewrite (proj2 (contains_false _ _)), (proj2 (contains_false _ _));
    [|unfold FMU.end_, FMU.start; cbn; lia..].
  simpl. unfold FMU.start. simpl. by rewrite (proj2 (Z.ltb_lt _ _) Hstart).
Qed.

(** C1 (defect in [add_range]). A candidate that strictly encloses an
    existing unit is not rejected: with one unit from 0x10 to 0x1F in the
    map, adding the range from 0x00 to 0x3F returns normally and the map
    then holds both units, the new one first. The loop only tests whether an
    end point of the candidate lies in the visited unit, and the check that
    follows it looks at the unit after the insertion position plus one. *)
Theorem add_range_accepts_enclosing_range :
  let m := (FM.add_range FM.__init__ 0x10 0x10 "").2 in
  FM._mu m = [FMU.__init__ 0x10 0x10 ""] ∧
  FM.add_range m 0x00 0x40 ""
    = (Return (), {| FM._mu := [FMU.__init__ 0x00 0x40 ""; FMU.__init__ 0x10 0x10 ""] |}).
Proof. by vm_compute. Qed.

(** In a map where no unit contains [address], every accessor raises the
    missing-address error in the default mode, and returns [None] with
    [no_error] set; the map is not modified. *)
Lemma read_write_unmapped (m : FM.t) (method_name : string) (address : Z)
    (val : pyval) (no_error : bool) :
  Forall (λ mu, address in_range FMU.range mu = false) (FM._mu m) →
  FM._read_write_method m method_name address val no_error =
    (if no_error then Return PyNone else Raise (IOError_no_address address), m).
Proof.
  intros Hnone. unfold FM._read_write_method, FM._find_mu.
  rewrite (proj2 (list_find_None _ _)); [by destruct no_error|].
  eapply Forall_impl; [exact Hnone|]. intros mu ->. auto.
Qed.

(** C4 (defect in [_read_write_method]). With [no_error] set, reading an
    address that no unit contains returns [None], not the zero byte, and
    [read32] returns [None], not a list of zeroes; the write returns [None]
    and leaves the map as it was. *)
Theorem tolerant_read_of_unmapped_address_returns_None :
  let m := (FM.add_range FM.__init__ 0x10 0x10 "").2 in
  FM.read m 0x00 PyNone true = (Return PyNone, m) ∧
  FM.read32 m 0x00 PyNone true = (Return PyNone, m) ∧
  FM.write m 0x00 (PyList [1; 2]) true = (Return PyNone, m) ∧
  FMU.read (FMU.__init__ 0x10 0x10 "") 0x00 true = Return 0.
Proof. by vm_compute. Qed.

(** C10. [add_range(start, 0)] on an empty map returns normally and
    inserts one unit, whose [end()] is [start() - 1] and whose data array is
    empty; on the resulting map every [read] and [read32] in the default
    mode, at any address, raises the missing-address [IOError]. *)
Theorem add_range_zero_length (start : Z) :
  ∃ mu, FM.add_range FM.__init__ start 0 "" = (Return (), {| FM._mu := [mu] |}) ∧
        FMU.start mu = start ∧
        FMU.end_ mu = FMU.start mu - 1 ∧
        FMU._data mu = [] ∧
        ∀ address val,
          FM.read {| FM._mu := [mu] |} address val false
            = (Raise (IOError_no_address address), {| FM._mu := [mu] |}) ∧
          FM.read32 {| FM._mu := [mu] |} address val false
            = (Raise (IOError_no_address address), {| FM._mu := [mu] |}).
Proof.
  exists (FMU.__init__ start 0 "").
  split; [done|]. split; [done|]. split; [unfold FMU.end_; cbn; lia|].
  split; [done|]. intros address val.
  assert (Forall (λ mu, address in_range FMU.range mu = false)
                 [FMU.__init__ start 0 ""]) as Hnone.
  { constructor; [|constructor]. apply contains_false. cbn.
    unfold FMU.end_, FMU.start. cbn. lia. }
  split; apply (read_write_unmapped {| FM._mu := [_] |}); exact Hnone.
Qed.

(** *** Insertion of ranges that do not overlap *)

Lemma disjoint_sym (p q : Z * Z) : disjoint p q → disjoint q p.
Proof. unfold disjoint. tauto. Qed.

Lemma pairwise_disjoint_Permutation (l l' : list (Z * Z)) :
  l ≡ₚ l' → pairwise_disjoint l → pairwise_disjoint l'.
Proof.
  unfold pairwise_disjoint.
  induction 1 as [|p l l' Hperm IH|p q l|l1 l2 l3 _ IH1 _ IH2].
  - done.
  - inversion_clear 1 as [|? ? Hp Hl]. constructor; [by rewrite <- Hperm|auto].
  - inversion_clear 1 as [|? ? Hq Hrest].
    inversion_clear Hrest as [|? ? Hp Hl].
    apply Forall_cons in Hq as [Hqp Hq].
    constructor; [|by constructor].
    constructor; [by apply disjoint_sym|done].
  - auto.
Qed.

Lemma StronglySorted_lookup {A} (R : relation A) (l : list A) (i j : nat) (x y : A) :
  StronglySorted R l → l !! i = Some x → l !! j = Some y → (i < j)%nat → R x y.
Proof.
  intros Hsorted Hi Hj Hlt.
  rewrite <- (take_drop_middle l i x Hi) in Hsorted.
  apply StronglySorted_app_1_r, StronglySorted_cons in Hsorted as [Hall _].
  apply (Forall_lookup_1 _ _ (j - S i) y Hall).
  rewrite lookup_drop, <- Hj. f_equal. lia.
Qed.

(** The loop of [add_range] on a candidate that overlaps no unit: it does
    not raise, and it stops at the position that separates the units that
    end before the candidate from those that start after it. *)
Lemma find_position_disjoint (new_mu : FMU.t) (units : list FMU.t) (k : nat) :
  units_ok units → FMU.start new_mu ≤ FMU.end_ new_mu →
  Forall (λ u, before u new_mu ∨ before new_mu u) units →
  ∃ p, FM.find_position new_mu units k = Return (k + p)%nat ∧
       Forall (λ u, before u new_mu) (take p units) ∧
       Forall (before new_mu) (drop p units).
Proof.
  intros [Hok Hpos Hsorted] Hnew. revert k.
  induction units as [|fmu units IH]; intros k Hdisj.
  { exists 0%nat. by rewrite Nat.add_0_r. }
  apply Forall_cons in Hok as [Hfmu Hok].
  apply Forall_cons in Hpos as [Hlen Hpos].
  apply StronglySorted_cons in Hsorted as [Hlater Hsorted].
  apply Forall_cons in Hdisj as [Hside Hdisj].
  unfold before in Hside. unfold FMU.end_ in Hside, Hnew.
  simpl.
  rewrite (proj2 (contains_false _ (FMU.start new_mu))), (proj2 (contains_false _ (FMU.end_ new_mu)));
    [|rewrite (range_ok _ Hfmu); unfold FMU.end_; cbn; lia..].
  simpl. destruct (FMU.start new_mu <? FMU.start fmu) eqn:Hlt.
  - apply Z.ltb_lt in Hlt. exists 0%nat. rewrite Nat.add_0_r.
    split; [done|]. split; [constructor|]. simpl.
    assert (before new_mu fmu) as Hbefore by (unfold before, FMU.end_; lia).
    constructor; [done|].
    eapply Forall_impl; [exact Hlater|]. intros u Hu.
    unfold before, FMU.end_ in *. lia.
  - apply Z.ltb_ge in Hlt.
    destruct (IH Hok Hpos Hsorted (S k) Hdisj) as (p & Hfind & Htake & Hdrop).
    exists (S p). rewrite Nat.add_succ_r. split; [done|]. split; [|done].
    simpl. constructor; [|done]. unfold before, FMU.end_. lia.
Qed.

Lemma check_next_disjoint (new_mu : FMU.t) (units : list FMU.t) (p : nat) :
  Forall (before new_mu) (drop p units) →
  FM.check_next new_mu units p = Return ().
Proof.
  intros Hdrop. unfold FM.check_next.
  destruct (units !! (p + 1)%nat) as [next_mu|] eqn:Hnext; [|done].
  rewrite <- lookup_drop in Hnext.
  apply (Forall_lookup_1 _ _ _ _ Hdrop) in Hnext. unfold before in Hnext.
  destruct (FMU.end_ new_mu >=? FMU.start next_mu) eqn:Hge; [|done].
  apply Z.geb_le in Hge. lia.
Qed.

Lemma list_insert_at_ok (new_mu : FMU.t) (units : list FMU.t) (p : nat) :
  units_ok units → unit_ok new_mu → 0 < FMU.length new_mu →
  Forall (λ u, before u new_mu) (take p units) →
  Forall (before new_mu) (drop p units) →
  units_ok (list_insert_at p new_mu units).
Proof.
  intros [Hok Hpos Hsorted] Hnew Hlen Htake Hdrop.
  rewrite <- (take_drop p units) in Hok, Hpos, Hsorted.
  apply Forall_app in Hok as [Hok1 Hok2].
  apply Forall_app in Hpos as [Hpos1 Hpos2].
  apply StronglySorted_app in Hsorted as (Hcross & Hs1 & Hs2).
  unfold list_insert_at. split.
  - apply Forall_app. split; [done|]. by constructor.
  - apply Forall_app. split; [done|]. by constructor.
  - apply StronglySorted_app_2; [|done|by constructor].
    intros u v Hu [->|Hv]%elem_of_cons; [|by apply Hcross].
    by apply (proj1 (Forall_forall _ _) Htake).
Qed.

Lemma add_range_disjoint (m : FM.t) (addr_start len : Z) (description : string) :
  units_ok (FM._mu m) → 0 < len →
  Forall (disjoint (addr_start, len)) (request_of <$> FM._mu m) →
  ∃ m', FM.add_range m addr_start len description = (Return (), m') ∧
        units_ok (FM._mu m') ∧
        request_of <$> FM._mu m' ≡ₚ (addr_start, len) :: (request_of <$> FM._mu m).
Proof.
  intros Hunits Hlen Hdisj. unfold FM.add_range.
  set (new_mu := FMU.__init__ addr_start len description).
  destruct (find_position_disjoint new_mu (FM._mu m) 0 Hunits)
    as (p & Hfind & Htake & Hdrop).
  { unfold FMU.end_. cbn. lia. }
  { rewrite Forall_fmap in Hdisj. eapply Forall_impl; [exact Hdisj|].
    intros u [Hu|Hu]; [right|left]; exact Hu. }
  rewrite Hfind. unfold mbind, result_bind.
  rewrite check_next_disjoint by done. simpl.
  eexists. split; [done|]. split.
  - apply list_insert_at_ok; [done|apply init_ok|done..].
  - cbn [FM._mu]. unfold list_insert_at.
    rewrite fmap_app, fmap_cons, <- Permutation_middle, <- fmap_app, take_drop.
    done.
Qed.

Lemma add_ranges_disjoint (pairs : list (Z * Z)) (m : FM.t) :
  units_ok (FM._mu m) → Forall (λ p, 0 < p.2) pairs →
  pairwise_disjoint pairs →
  Forall (λ p, Forall (disjoint p) (request_of <$> FM._mu m)) pairs →
  ∃ m', add_ranges m pairs = (Return (), m') ∧
        units_ok (FM._mu m') ∧
        request_of <$> FM._mu m' ≡ₚ pairs ++ (request_of <$> FM._mu m).
Proof.
  revert m. induction pairs as [|[addr_start len] pairs IH];
    intros m Hunits Hlen Hpairs Hmap.
  { exists m. by split. }
  apply Forall_cons in Hlen as [Hlen Hlens].
  apply Forall_cons in Hmap as [Hnew Hmap].
  inversion_clear Hpairs as [|? ? Hfirst Hrest].
  destruct (add_range_disjoint m addr_start len "" Hunits Hlen Hnew)
    as (m1 & Hadd & Hunits1 & Hperm1).
  destruct (IH m1 Hunits1 Hlens Hrest) as (m' & Hadds & Hunits' & Hperm').
  { apply Forall_forall. intros q Hq. rewrite Hperm1. constructor.
    - apply disjoint_sym. by apply (proj1 (Forall_forall _ _) Hfirst).
    - by apply (proj1 (Forall_forall _ _) Hmap). }
  exists m'. simpl. rewrite Hadd. split; [done|]. split; [done|].
  rewrite Hperm', Hperm1. by rewrite <- Permutation_middle.
Qed.

(** C5. Take requested ranges of positive length whose inclusive intervals
    are pairwise disjoint, and add them to an empty map in any order: every
    call to [add_range] returns normally, the map holds one unit per range,
    and in its list of units each unit starts before the next one and ends
    before the next one starts. *)
Theorem add_disjoint_ranges_in_any_order (pairs order : list (Z * Z)) :
  Forall (λ p, 0 < p.2) pairs → pairwise_disjoint pairs → order ≡ₚ pairs →
  ∃ m, add_ranges FM.__init__ order = (Return (), m) ∧
       request_of <$> FM._mu m ≡ₚ pairs ∧
       ∀ i u v, FM._mu m !! i = Some u → FM._mu m !! S i = Some v →
                FMU.start u < FMU.start v ∧ FMU.end_ u < FMU.start v.
Proof.
  intros Hlen Hpairs Horder.
  destruct (add_ranges_disjoint order FM.__init__) as (m & Hadd & Hunits & Hperm).
  - split; constructor.
  - by rewrite Horder.
  - by apply (pairwise_disjoint_Permutation pairs).
  - apply Forall_forall. intros p _. constructor.
  - exists m. split; [done|]. split.
    { rewrite Hperm. simpl. by rewrite app_nil_r. }
    intros i u v Hu Hv. destruct Hunits as [_ Hpos Hsorted].
    pose proof (StronglySorted_lookup _ _ i (S i) u v Hsorted Hu Hv) as Hbefore.
    pose proof (Forall_lookup_1 _ _ _ _ Hpos Hu) as Hpos_u. simpl in Hpos_u.
    unfold before, FMU.end_ in *. lia.
Qed.

Lemma add_disjoint_ranges_in_any_order_witness :
  ∃ m, add_ranges FM.__init__ [(0x50, 10); (0x10, 32); (0x40, 10); (0x00, 0x10)]
         = (Return (), m) ∧
       FMU.start <$> FM._mu m = [0x00; 0x10; 0x40; 0x50].
Proof.
  destruct (add_disjoint_ranges_in_any_order
              [(0x00, 0x10); (0x10, 32); (0x40, 10); (0x50, 10)]
              [(0x50, 10); (0x10, 32); (0x40, 10); (0x00, 0x10)])
    as (m & Hadd & _ & _).
  - repeat constructor.
  - unfold pairwise_disjoint, disjoint, last_address.
    repeat (constructor; simpl); lia.
  - apply (bool_decide_unpack _). vm_compute. reflexivity.
  - exists m. split; [exact Hadd|].
    vm_compute in Hadd. injection Hadd as <-. reflexivity.
Defined.

(** ** FakeMemoryItf *)

(** What the checksum gate does achieve: when the checksum validation of
    a record line fails, the memory is left exactly as it was, whatever the
    parser made of the line; and when the line parses into fields whose
    address decodes, the command returns [False]. *)
Theorem bad_checksum_rejected `{SRec, Builtins} (self : FakeMemoryItf.t)
    (srec : string) :
  validate_srec_checksum (strip srec) = Return false →
  (FakeMemoryItf.cmd_write_srec self srec).2 = self ∧
  ∀ rtype rlen addr data chk a,
    parse_srec srec = Return (rtype, rlen, addr, data, chk) →
    int16 addr = Return a →
    FakeMemoryItf.cmd_write_srec self srec = (Return false, self).
Proof.
  intros Hchk. unfold FakeMemoryItf.cmd_write_srec. split.
  - destruct (parse_srec srec) as [[[[[rtype rlen] addr] data] chk]|e]; [|done].
    unfold mbind, result_bind.
    destruct (int16 addr) as [a|e]; [|done]. by rewrite Hchk.
  - intros rtype rlen addr data chk a -> . unfold mbind, result_bind.
    intros ->. by rewrite Hchk.
Qed.

Lemma bad_checksum_rejected_witness :
  @FakeMemoryItf.cmd_write_srec sample_srec sample_builtins sample_itf
    "S30810000010AABBCCA7" = (Return false, sample_itf).
Proof.
  destruct (@bad_checksum_rejected sample_srec sample_builtins sample_itf
              "S30810000010AABBCCA7") as [_ Hfalse].
  - vm_compute. reflexivity.
  - apply (Hfalse "S3" "08" "10000010" "AABBCC" "A7" 0x10000010)%string.
    + vm_compute. reflexivity.
    + vm_compute. reflexivity.
Defined.

(** What it misses: the address field is decoded before the checksum is
    looked at, so the exception of [int(addr, 16)] on a field that is not a
    hexadecimal literal leaves the command before the checksum test is
    reached, whatever the checksum of the line. *)
Lemma address_decoded_before_checksum `{SRec, Builtins} (self : FakeMemoryItf.t)
    (srec rtype rlen addr data chk : string) (e : exn) :
  parse_srec srec = Return (rtype, rlen, addr, data, chk) →
  int16 addr = Raise e →
  FakeMemoryItf.cmd_write_srec self srec = (Raise e, self).
Proof.
  intros Hparse Haddr. unfold FakeMemoryItf.cmd_write_srec.
  rewrite Hparse. unfold mbind, result_bind. by rewrite Haddr.
Qed.


(** C7. A record line that parses, whose address decodes, whose checksum
    is valid and whose type is none of S0, S3 and S7 makes the command raise
    [NotImplementedError] naming the type, and the memory is left exactly as
    it was. *)
Theorem unsupported_record_type `{SRec, Builtins} (self : FakeMemoryItf.t)
    (srec rtype rlen addr data chk : string) (a : Z) :
  parse_srec srec = Return (rtype, rlen, addr, data, chk) →
  int16 addr = Return a →
  validate_srec_checksum (strip srec) = Return true →
  rtype ≠ "S0"%string → rtype ≠ "S3"%string → rtype ≠ "S7"%string →
  FakeMemoryItf.cmd_write_srec self srec = (Raise (NotImplementedError rtype), self).
Proof.
  intros Hparse Haddr Hchk HS0 HS3 HS7. unfold FakeMemoryItf.cmd_write_srec.
  rewrite Hparse. unfold mbind, result_bind. rewrite Haddr, Hchk. simpl.
  apply String.eqb_neq in HS0, HS3, HS7. by rewrite HS0, HS3, HS7.
Qed.

Lemma unsupported_record_type_witness :
  @FakeMemoryItf.cmd_write_srec sample_srec sample_builtins sample_itf
    "S5030001FB" = (Raise (NotImplementedError "S5"), sample_itf).
Proof.
  apply (@unsupported_record_type sample_srec sample_builtins sample_itf
           "S5030001FB" "S5" "03" "0001" "" "FB" 1)%string.
  - vm_compute. reflexivity.
  - vm_compute. reflexivity.
  - vm_compute. reflexivity.
  - discriminate.
  - discriminate.
  - discriminate.
Defined.

(** * Further properties *)

(** ** FakeMemoryUnit *)

Lemma mapM_fmap_Return {A B} (f : A → result B) (g : A → B) (l : list A) :
  Forall (λ x, f x = Return (g x)) l → mapM f l = Return (g <$> l).
Proof.
  intros Hall. apply mapM_Return.
  induction Hall; constructor; auto.
Qed.

Lemma mapM_app_Raise {A B} (f : A → result B) (l1 l2 : list A) (x : A) (e : exn) :
  Forall (λ y, ∃ v, f y = Return v) l1 → f x = Raise e →
  mapM f (l1 ++ x :: l2) = Raise e.
Proof.
  unfold mapM. intros Hall Hx.
  induction Hall as [|y l1 [v Hy] _ IH]; simpl.
  - by rewrite Hx.
  - rewrite Hy. simpl. by rewrite IH.
Qed.

(** Two well-formed units with the same interval answer a read alike when
    they hold the same byte at the address read. *)
Lemma read_same (mu mu' : FMU.t) (address : Z) (no_error : bool) :
  unit_ok mu → unit_ok mu' →
  FMU.start mu' = FMU.start mu → FMU.end_ mu' = FMU.end_ mu →
  (FMU.start mu ≤ address ≤ FMU.end_ mu →
   FMU._data mu' !! Z.to_nat (address - FMU.start mu)
   = FMU._data mu !! Z.to_nat (address - FMU.start mu)) →
  FMU.read mu' address no_error = FMU.read mu address no_error.
Proof.
  intros Hok Hok' Hstart Hend Hdata.
  destruct (decide (FMU.start mu ≤ address ≤ FMU.end_ mu)) as [Hin|Hout].
  - destruct (read_inside mu address no_error Hok Hin) as (v & -> & Hv).
    destruct (read_inside mu' address no_error Hok') as (v' & -> & Hv'); [lia|].
    rewrite Hstart, Hdata in Hv' by done. congruence.
  - rewrite !read_outside; (done || lia).
Qed.

(** X1. After [clear()], reading any address of the unit returns 0,
    whatever the unit held before. *)
Theorem clear_then_read (mu : FMU.t) (address : Z) (no_error : bool) :
  unit_ok mu → FMU.start mu ≤ address ≤ FMU.end_ mu →
  FMU.read (FMU.clear mu) address no_error = Return 0.
Proof.
  intros Hok Ha.
  destruct (read_inside (FMU.clear mu) address no_error (clear_ok _ Hok) Ha)
    as (v & -> & Hv).
  cbn in Hv. unfold zeroes in Hv. by apply lookup_replicate in Hv as [-> _].
Qed.

Lemma clear_then_read_witness :
  let mu := (FMU.write (FMU.__init__ 0x10 8 "") 0x12 (PyList [1; 2; 3]) false).2 in
  FMU.read mu 0x13 false = Return 2 ∧
  FMU.read (FMU.clear mu) 0x13 false = Return 0.
Proof.
  split; [reflexivity|].
  apply clear_then_read.
  - split; [reflexivity|vm_compute; discriminate].
  - vm_compute. split; discriminate.
Defined.

(** X2. Writing one byte value between 0 and 255 at an address of the unit
    returns normally; the address then reads as that value, every other
    address reads as before, and the data array keeps its size. *)
Theorem write_byte_then_read (mu : FMU.t) (address n : Z) (no_error : bool) :
  unit_ok mu → FMU.start mu ≤ address ≤ FMU.end_ mu → 0 ≤ n < 256 →
  ∃ mu', FMU.write mu address (PyInt n) no_error = (Return (), mu') ∧
         (∀ no_error', FMU.read mu' address no_error' = Return n) ∧
         (∀ address' no_error', address' ≠ address →
            FMU.read mu' address' no_error' = FMU.read mu address' no_error') ∧
         length (FMU._data mu') = length (FMU._data mu).
Proof.
  intros Hok Ha Hn. pose proof (data_covers _ Hok) as Hcov.
  set (i := Z.to_nat (address - FMU.start mu)).
  assert (i < length (FMU._data mu))%nat as Hi by (unfold i, FMU.end_ in *; lia).
  exists (FMU.with_data mu (<[i:=n]> (FMU._data mu))).
  assert (unit_ok (FMU.with_data mu (<[i:=n]> (FMU._data mu)))) as Hok'.
  { split; [apply (range_ok _ Hok)|]. cbn. by rewrite length_insert. }
  split_and!.
  - unfold FMU.write. rewrite get_address_inside by done.
    unfold mbind, result_bind, setitem.
    rewrite norm_index_inside by (unfold FMU.end_ in *; lia).
    by rewrite (proj2 (byte_ok_spec n) Hn).
  - intros no_error'.
    destruct (read_inside _ address no_error' Hok' Ha) as (v & -> & Hv).
    cbn in Hv. fold i in Hv. rewrite list_lookup_insert_eq in Hv by done.
    congruence.
  - intros address' no_error' Hne. apply read_same; try done.
    intros Ha'. cbn. apply list_lookup_insert_ne. unfold i. lia.
  - cbn. apply length_insert.
Qed.

Lemma write_byte_then_read_witness :
  ∃ mu', FMU.write (FMU.__init__ 0x10 1024 "") 0x10 (PyInt 0xAA) false
           = (Return (), mu') ∧
         FMU.read mu' 0x10 false = Return 0xAA ∧
         FMU.read mu' 0x11 false = Return 0.
Proof.
  destruct (write_byte_then_read (FMU.__init__ 0x10 1024 "") 0x10 0xAA false)
    as (mu' & Hw & Hsame & Hother & _).
  - split; [reflexivity|vm_compute; discriminate].
  - vm_compute. split; discriminate.
  - lia.
  - exists mu'. split; [exact Hw|]. split; [apply Hsame|].
    rewrite Hother by discriminate. reflexivity.
Defined.

(** X3. A block write that lies inside the unit leaves every address
    outside the block reading as before. *)
Theorem write_block_frame (mu : FMU.t) (A : Z) (bs : list Z) (no_error : bool) :
  unit_ok mu → Forall (λ b, 0 ≤ b < 256) bs →
  FMU.start mu ≤ A ≤ FMU.end_ mu →
  A + Z.of_nat (length bs) - 1 ≤ FMU.end_ mu →
  ∀ address no_error',
    ¬ (A ≤ address < A + Z.of_nat (length bs)) →
    FMU.read (FMU.write mu A (PyList bs) no_error).2 address no_error'
    = FMU.read mu address no_error'.
Proof.
  intros Hok Hbs HA Hlast address no_error' Hout.
  pose proof (data_covers _ Hok) as Hcov.
  rewrite write_block_inside by done. cbn [snd].
  set (i := Z.to_nat (A - FMU.start mu)).
  assert (length (take i (FMU._data mu)) = i) as Htake.
  { rewrite length_take. unfold i, FMU.end_ in *. lia. }
  apply read_same; try done.
  - split; [apply (range_ok _ Hok)|]. cbn.
    rewrite !length_app, Htake, length_drop. unfold i, FMU.end_ in *. lia.
  - intros Ha. cbn.
    destruct (decide (address < A)) as [Hlow|Hhigh].
    + rewrite lookup_app_l by (rewrite Htake; unfold i; lia).
      apply lookup_take_lt. unfold i. lia.
    + rewrite lookup_app_r by (rewrite Htake; unfold i; lia).
      rewrite lookup_app_r by (rewrite Htake; unfold i; lia).
      rewrite lookup_drop, Htake. f_equal. unfold i. lia.
Qed.

Lemma write_block_frame_witness :
  let mu := (FMU.write (FMU.__init__ 0x10 8 "") 0x10 (PyInt 7) false).2 in
  FMU.read (FMU.write mu 0x12 (PyList [1; 2; 3]) false).2 0x10 false
  = FMU.read mu 0x10 false.
Proof.
  apply write_block_frame.
  - split; [reflexivity|vm_compute; discriminate].
  - repeat constructor; lia.
  - vm_compute. split; discriminate.
  - vm_compute. discriminate.
  - vm_compute. intros [H _]. apply H. reflexivity.
Defined.

Lemma write_bytes_ok (mu : FMU.t) (address : Z) (value : pyval) (no_error : bool) :
  Forall (λ b, 0 ≤ b < 256) (FMU._data mu) →
  Forall (λ b, 0 ≤ b < 256) (FMU._data (FMU.write mu address value no_error).2).
Proof.
  intros Hbytes. unfold FMU.write.
  destruct (FMU._get_address mu address) as [i|e]; cbn;
    [|by destruct e, no_error].
  assert (∀ v, match setitem (FMU._data mu) i v with
               | Return d => Forall (λ b, 0 ≤ b < 256) d
               | Raise _ => True
               end) as Hitem.
  { intros v. unfold setitem.
    destruct (norm_index (FMU._data mu) i) as [k|]; cbn; [|done].
    destruct v as [|n|]; try done.
    destruct (byte_ok n) eqn:Hn; [|done].
    apply Forall_insert; [done|]. by apply byte_ok_spec. }
  destruct value as [|n|l].
  - specialize (Hitem PyNone).
    destruct (setitem _ _ _) as [d|e]; [done|by destruct e, no_error].
  - specialize (Hitem (PyInt n)).
    destruct (setitem _ _ _) as [d|e]; [done|by destruct e, no_error].
  - unfold setslice. destruct (forallb byte_ok l) eqn:Hl.
    + cbn. apply forallb_byte_ok in Hl.
      rewrite !Forall_app. split_and!; [by apply Forall_take|done|by apply Forall_drop].
    + by destruct no_error.
Qed.

(** X4. Every unit a program can build (constructed, then written and
    cleared any number of times, with any arguments and any outcome) keeps
    its range equal to the interval from [start()] to [end()], holds at
    least [length] bytes, and holds only values between 0 and 255. *)
Theorem reachable_invariant (mu : FMU.t) :
  reachable mu →
  FMU.range mu = helpers.CustomRange.__init__ (FMU.start mu) (FMU.end_ mu) ∧
  FMU.length mu ≤ Z.of_nat (length (FMU._data mu)) ∧
  Forall (λ b, 0 ≤ b < 256) (FMU._data mu).
Proof.
  intros Hreach.
  destruct (reachable_ok mu Hreach) as [Hrange Hcov].
  split; [done|]. split; [done|]. clear Hrange Hcov.
  induction Hreach as [addr_start len description|mu address value no_error _ IH|mu _ _].
  - cbn. unfold zeroes. apply Forall_replicate. lia.
  - by apply write_bytes_ok.
  - cbn. unfold zeroes. apply Forall_replicate. lia.
Qed.

Lemma reachable_invariant_witness :
  Forall (λ b, 0 ≤ b < 256)
    (FMU._data (FMU.write (FMU.write (FMU.__init__ 0x10 4 "") 0x12
                             (PyList [1; 2; 3; 4; 5]) false).2
                  0x10 (PyInt 300) true).2).
Proof.
  apply reachable_invariant.
  apply reachable_write, reachable_write, reachable_init.
Defined.

Lemma read_stored_or_zero (mu : FMU.t) (address : Z) :
  unit_ok mu →
  FMU.read mu address true = Return (stored_or_zero mu address) ∧
  (FMU.start mu ≤ address ≤ FMU.end_ mu →
   FMU.read mu address false = Return (stored_or_zero mu address)).
Proof.
  intros Hok. unfold stored_or_zero. case_bool_decide as Hin.
  - split; [|intros _].
    + destruct (read_inside mu address true Hok Hin) as (v & -> & ->). done.
    + destruct (read_inside mu address false Hok Hin) as (v & -> & ->). done.
  - split; [|done]. by rewrite read_outside.
Qed.

(** X5. With [no_error] set, [read32] never raises: it returns 32 values,
    the stored byte for each address inside the unit and 0 for each address
    outside. *)
Theorem read32_tolerant (mu : FMU.t) (address : Z) :
  unit_ok mu →
  FMU.read32 mu address true = Return (stored_or_zero mu <$> seqZ address 32) ∧
  length (stored_or_zero mu <$> seqZ address 32) = 32%nat.
Proof.
  intros Hok. split; [|by rewrite length_fmap, length_seqZ].
  apply mapM_fmap_Return, Forall_forall. intros x _.
  by apply read_stored_or_zero.
Qed.

Lemma read32_tolerant_witness :
  FMU.read32 (FMU.write (FMU.__init__ 0x10 4 "") 0x12 (PyList [7; 8]) false).2
    0x00 true
  = Return (replicate 18 0 ++ [7; 8] ++ replicate 12 0).
Proof.
  destruct (read32_tolerant
              (FMU.write (FMU.__init__ 0x10 4 "") 0x12 (PyList [7; 8]) false).2 0x00)
    as [Hread _].
  - split; [reflexivity|vm_compute; discriminate].
  - exact Hread.
Defined.

(** X6. Without [no_error], [read32] raises the out-of-range error at the
    first of its 32 addresses that is outside the unit: at the address
    itself when it is outside, and at [end() + 1] when the block starts
    inside and runs past the end. When all 32 addresses are inside, it
    returns the 32 stored bytes. *)
Theorem read32_strict (mu : FMU.t) (address : Z) :
  unit_ok mu →
  (¬ (FMU.start mu ≤ address ≤ FMU.end_ mu) →
   FMU.read32 mu address false = Raise (IOError_out_of_range address)) ∧
  (FMU.start mu ≤ address ≤ FMU.end_ mu → FMU.end_ mu < address + 31 →
   FMU.read32 mu address false = Raise (IOError_out_of_range (FMU.end_ mu + 1))) ∧
  (FMU.start mu ≤ address → address + 31 ≤ FMU.end_ mu →
   FMU.read32 mu address false = Return (stored_or_zero mu <$> seqZ address 32)).
Proof.
  intros Hok. unfold FMU.read32, FMU.read_block. split_and!.
  - intros Hout. rewrite seqZ_cons by lia.
    apply (mapM_app_Raise _ []); [constructor|]. by rewrite read_outside.
  - intros Hin Hpast.
    replace 32 with ((FMU.end_ mu - address + 1) + (address + 31 - FMU.end_ mu)) by lia.
    rewrite seqZ_app by lia. rewrite (seqZ_cons (address + _)) by lia.
    replace (address + (FMU.end_ mu - address + 1)) with (FMU.end_ mu + 1) by lia.
    apply mapM_app_Raise.
    + apply Forall_forall. intros x Hx%elem_of_seqZ.
      exists (stored_or_zero mu x). apply read_stored_or_zero; [done|lia].
    + rewrite read_outside; [done..|lia].
  - intros Hfirst Hlast. apply mapM_fmap_Return, Forall_forall.
    intros x Hx%elem_of_seqZ. apply read_stored_or_zero; [done|lia].
Qed.

Lemma read32_strict_witness :
  let mu := FMU.__init__ 0x10 1024 "" in
  FMU.read32 mu 0x00 false = Raise (IOError_out_of_range 0x00) ∧
  FMU.read32 mu 0x400 false = Raise (IOError_out_of_range 0x410).
Proof.
  destruct (read32_strict (FMU.__init__ 0x10 1024 "") 0x00) as (Hout & _ & _).
  { split; [reflexivity|vm_compute; discriminate]. }
  destruct (read32_strict (FMU.__init__ 0x10 1024 "") 0x400) as (_ & Hpast & _).
  { split; [reflexivity|vm_compute; discriminate]. }
  split.
  - apply Hout. vm_compute. intros [H _]. apply H. reflexivity.
  - apply Hpast; [vm_compute; split; discriminate|reflexivity].
Defined.

(** X7. With [no_error] set, writing a byte value or a list of byte values
    never raises, whatever the address and the values; the only write that
    still raises is one whose value is [None], at an address of the unit. *)
Theorem tolerant_write_returns (mu : FMU.t) (address : Z) (value : pyval) :
  unit_ok mu →
  (value ≠ PyNone → (FMU.write mu address value true).1 = Return ()) ∧
  (FMU.start mu ≤ address ≤ FMU.end_ mu →
   FMU.write mu address PyNone true = (Raise TypeError, mu)).
Proof.
  intros Hok. pose proof (data_covers _ Hok) as Hcov. split.
  - intros Hvalue. unfold FMU.write.
    destruct (FMU._get_address mu address) as [i|e] eqn:Hget.
    + apply get_address_Return in Hget as [-> Hi]; [|done].
      unfold mbind, result_bind. destruct value as [|n|l]; [done| |].
      * unfold setitem. rewrite norm_index_inside by lia.
        unfold mbind, result_bind. by destruct (byte_ok n).
      * unfold setslice. by destruct (forallb byte_ok l).
    + unfold FMU._get_address in Hget.
      destruct (address in_range FMU.range mu); [done|]. by injection Hget as <-.
  - intros Hin. unfold FMU.write. rewrite get_address_inside by done.
    unfold mbind, result_bind, setitem.
    rewrite norm_index_inside by (unfold FMU.end_ in *; lia). done.
Qed.

Lemma tolerant_write_returns_witness :
  let mu := FMU.__init__ 0x10 1024 "" in
  (FMU.write mu 0x00 (PyInt 0xAA) true).1 = Return () ∧
  (FMU.write mu 0x10 (PyInt 256) true).1 = Return ().
Proof.
  split.
  - apply tolerant_write_returns; [|discriminate].
    split; [reflexivity|vm_compute; discriminate].
  - apply tolerant_write_returns; [|discriminate].
    split; [reflexivity|vm_compute; discriminate].
Defined.

(** ** FakeMemory: the accessors *)

(** The invariant of the list of units only depends on the well-formedness
    of each unit and on the requested ranges. *)
Lemma sorted_request_of (units : list FMU.t) :
  StronglySorted before units ↔
  StronglySorted (λ p q : Z * Z, p.1 + p.2 - 1 < q.1) (request_of <$> units).
Proof.
  induction units as [|u units IH]; csimpl.
  - split; constructor.
  - rewrite !StronglySorted_cons, IH, Forall_fmap. done.
Qed.

Lemma units_ok_layout (units units' : list FMU.t) :
  request_of <$> units' = request_of <$> units →
  Forall unit_ok units' → units_ok units → units_ok units'.
Proof.
  intros Hlayout Hok' [_ Hpos Hsorted]. split; [done| |].
  - assert (Forall (λ p : Z * Z, 0 < p.2) (request_of <$> units')) as Hpos'.
    { rewrite Hlayout, Forall_fmap. exact Hpos. }
    rewrite Forall_fmap in Hpos'. exact Hpos'.
  - apply sorted_request_of. rewrite Hlayout. by apply sorted_request_of.
Qed.

Lemma write_request_of (mu : FMU.t) (address : Z) (value : pyval) (no_error : bool) :
  request_of (FMU.write mu address value no_error).2 = request_of mu.
Proof.
  unfold FMU.write.
  destruct (_ ← FMU._get_address mu address; _) as [d|e]; [done|].
  by destruct (is_IOError e || is_ValueError e), no_error.
Qed.

Lemma write_Raise_unchanged (mu : FMU.t) (address : Z) (value : pyval)
    (no_error : bool) (e : exn) :
  (FMU.write mu address value no_error).1 = Raise e →
  (FMU.write mu address value no_error).2 = mu.
Proof.
  unfold FMU.write.
  destruct (_ ← FMU._get_address mu address; _) as [d|e']; [done|].
  by destruct (is_IOError e' || is_ValueError e'), no_error.
Qed.

Lemma find_mu_Return (m : FM.t) (address : Z) (i : nat) (mu : FMU.t) :
  FM._find_mu m address = Return (i, mu) →
  FM._mu m !! i = Some mu ∧ address in_range FMU.range mu = true.
Proof.
  unfold FM._find_mu.
  destruct (list_find _ _) as [[j u]|] eqn:Hfind; [|done].
  intros [= -> ->]. apply list_find_Some in Hfind as (Hi & Hin & _).
  split; [done|]. by apply Is_true_true.
Qed.

(** The map an accessor leaves behind: a read leaves the map itself, a
    write replaces the unit found by what the unit's [write] leaves. *)
Lemma read_write_state (m : FM.t) (method_name : string) (address : Z)
    (val : pyval) (no_error : bool) :
  (FM._read_write_method m method_name address val no_error).2 =
    match FM._find_mu m address with
    | Return (i, mu) =>
        if String.prefix "read" method_name then m
        else if String.prefix "write" method_name then
          {| FM._mu := <[i:=(FM.call_write mu method_name address val no_error).2]>
                         (FM._mu m) |}
        else m
    | Raise _ => m
    end.
Proof.
  unfold FM._read_write_method.
  destruct (FM._find_mu m address) as [[i mu]|e].
  - destruct (String.prefix "read" method_name).
    + destruct (FM.call_read _ _ _ _) as [v|e]; [done|].
      by destruct (is_IOError e), no_error.
    + destruct (String.prefix "write" method_name); [|done].
      destruct (FM.call_write _ _ _ _ _) as [[v|e] mu']; [done|].
      by destruct (is_IOError e), no_error.
  - by destruct (is_IOError e), no_error.
Qed.

Lemma call_write_request_of (mu : FMU.t) (method_name : string) (address : Z)
    (val : pyval) (no_error : bool) :
  request_of (FM.call_write mu method_name address val no_error).2 = request_of mu.
Proof.
  unfold FM.call_write. destruct (String.eqb method_name "write"); [|done].
  pose proof (write_request_of mu address val no_error) as Hreq.
  by destruct (FMU.write mu address val no_error).
Qed.

Lemma call_write_ok (mu : FMU.t) (method_name : string) (address : Z)
    (val : pyval) (no_error : bool) :
  unit_ok mu → unit_ok (FM.call_write mu method_name address val no_error).2.
Proof.
  intros Hok. unfold FM.call_write.
  destruct (String.eqb method_name "write"); [|done].
  pose proof (write_ok mu address val no_error Hok) as Hok'.
  by destruct (FMU.write mu address val no_error).
Qed.

Lemma call_write_Raise_unchanged (mu : FMU.t) (method_name : string) (address : Z)
    (val : pyval) (no_error : bool) (e : exn) :
  (FM.call_write mu method_name address val no_error).1 = Raise e →
  (FM.call_write mu method_name address val no_error).2 = mu.
Proof.
  unfold FM.call_write. destruct (String.eqb method_name "write"); [|done].
  pose proof (write_Raise_unchanged mu address val no_error) as Hsame.
  destruct (FMU.write mu address val no_error) as [[[]|e'] mu']; [done|].
  intros _. by apply (Hsame e').
Qed.

(** The unit a write through the map leaves in place of the unit found has
    the same requested range and is well formed. *)
Lemma write_replaces_in_place (m : FM.t) (address : Z) (val : pyval)
    (no_error : bool) :
  (FM.write m address val no_error).2 = m ∨
  ∃ i mu mu', FM._mu m !! i = Some mu ∧ request_of mu' = request_of mu ∧
              (unit_ok mu → unit_ok mu') ∧
              (FM.write m address val no_error).2 = {| FM._mu := <[i:=mu']> (FM._mu m) |}.
Proof.
  unfold FM.write. rewrite read_write_state.
  destruct (FM._find_mu m address) as [[i mu]|e] eqn:Hfind; [|by left].
  apply find_mu_Return in Hfind as [Hi _]. simpl. right.
  exists i, mu, (FM.call_write mu "write" address val no_error).2.
  split; [done|]. split; [apply call_write_request_of|].
  split; [apply call_write_ok|done].
Qed.

(** X8. No accessor of the map ever changes the layout: after any call of
    [read], [read32], [write] (or of [_read_write_method] under any method
    name), with any arguments and any outcome, the map holds the same
    number of units with the same start addresses and lengths, in the same
    order; and a map whose units are well formed, not empty, sorted and
    disjoint stays so. *)
Theorem accessors_keep_layout (m : FM.t) (method_name : string) (address : Z)
    (val : pyval) (no_error : bool) :
  let m' := (FM._read_write_method m method_name address val no_error).2 in
  request_of <$> FM._mu m' = request_of <$> FM._mu m ∧
  (units_ok (FM._mu m) → units_ok (FM._mu m')).
Proof.
  cbv zeta. rewrite read_write_state.
  destruct (FM._find_mu m address) as [[i mu]|e] eqn:Hfind; [|done].
  apply find_mu_Return in Hfind as [Hi _].
  destruct (String.prefix "read" method_name); [done|].
  destruct (String.prefix "write" method_name); [|done].
  assert (request_of <$> <[i:=(FM.call_write mu method_name address val no_error).2]>
                           (FM._mu m) = request_of <$> FM._mu m) as Hlayout.
  { rewrite list_fmap_insert, call_write_request_of.
    apply list_insert_id. by rewrite list_lookup_fmap, Hi. }
  split; [done|]. intros Hunits. apply (units_ok_layout (FM._mu m)); [done| |done].
  apply Forall_insert; [apply (units_unit_ok _ Hunits)|].
  apply call_write_ok. by apply (Forall_lookup_1 _ _ _ _ (units_unit_ok _ Hunits) Hi).
Qed.

(** X9. Reads never modify the map, whatever their outcome, and a write
    that raises leaves the map exactly as it was. *)
Theorem reads_and_failed_writes_keep_map (m : FM.t) (address : Z) (val : pyval)
    (no_error : bool) :
  (FM.read m address val no_error).2 = m ∧
  (FM.read32 m address val no_error).2 = m ∧
  (∀ e, (FM.write m address val no_error).1 = Raise e →
        (FM.write m address val no_error).2 = m).
Proof.
  split_and!.
  - unfold FM.read. rewrite read_write_state.
    by destruct (FM._find_mu m address) as [[i mu]|e].
  - unfold FM.read32. rewrite read_write_state.
    by destruct (FM._find_mu m address) as [[i mu]|e].
  - intros e. unfold FM.write, FM._read_write_method.
    destruct (FM._find_mu m address) as [[i mu]|e'] eqn:Hfind.
    + apply find_mu_Return in Hfind as [Hi _]. simpl.
      pose proof (call_write_Raise_unchanged mu "write" address val no_error) as Hsame.
      destruct (FM.call_write mu "write" address val no_error) as [[v|e''] mu'];
        [done|].
      simpl in *. rewrite (Hsame e'' eq_refl), (list_insert_id _ _ _ Hi).
      destruct m. by destruct (is_IOError e''), no_error.
    + by destruct (is_IOError e'), no_error.
Qed.

Lemma unit_contains (mu : FMU.t) (address : Z) :
  unit_ok mu →
  address in_range FMU.range mu = true ↔ FMU.start mu ≤ address ≤ FMU.end_ mu.
Proof. intros [Hr _]. rewrite contains_spec, Hr. done. Qed.

(** X10. In a map whose units are well formed, not empty, sorted and
    disjoint, [_find_mu] returns the one unit whose interval contains the
    address, and raises the missing-address error when no unit does. *)
Theorem find_mu_owner (m : FM.t) (address : Z) :
  units_ok (FM._mu m) →
  (∀ i mu, FM._mu m !! i = Some mu →
           FMU.start mu ≤ address ≤ FMU.end_ mu →
           FM._find_mu m address = Return (i, mu)) ∧
  ((∀ mu, mu ∈ FM._mu m → ¬ (FMU.start mu ≤ address ≤ FMU.end_ mu)) →
   FM._find_mu m address = Raise (IOError_no_address address)).
Proof.
  intros [Hok Hpos Hsorted]. unfold FM._find_mu. split.
  - intros i mu Hi Hin.
    rewrite (proj2 (list_find_Some _ _ i mu)); [done|].
    split; [done|]. split.
    + apply Is_true_true, unit_contains; [|done].
      by apply (Forall_lookup_1 _ _ _ _ Hok Hi).
    + intros j u Hj Hlt Hcontains. apply Is_true_true in Hcontains.
      apply unit_contains in Hcontains;
        [|by apply (Forall_lookup_1 _ _ _ _ Hok Hj)].
      pose proof (StronglySorted_lookup _ _ j i u mu Hsorted Hj Hi Hlt) as Hbefore.
      unfold before in Hbefore. lia.
  - intros Hnone. rewrite (proj2 (list_find_None _ _)); [done|].
    apply Forall_forall. intros mu Hmu Hcontains. apply Is_true_true in Hcontains.
    apply unit_contains in Hcontains;
      [|by apply (proj1 (Forall_forall _ _) Hok)].
    by apply (Hnone mu).
Qed.

Lemma find_mu_owner_witness :
  let m := (add_ranges FM.__init__ [(0x50, 10); (0x10, 32)]).2 in
  FM._find_mu m 0x55 = Return (1%nat, FMU.__init__ 0x50 10 "") ∧
  FM._find_mu m 0x30 = Raise (IOError_no_address 0x30).
Proof.
  destruct (find_mu_owner (add_ranges FM.__init__ [(0x50, 10); (0x10, 32)]).2 0x55)
    as [Hfound _].
  { split.
    - repeat constructor; vm_compute; discriminate.
    - repeat constructor.
    - repeat constructor. }
  destruct (find_mu_owner (add_ranges FM.__init__ [(0x50, 10); (0x10, 32)]).2 0x30)
    as [_ Hnone].
  { split.
    - repeat constructor; vm_compute; discriminate.
    - repeat constructor.
    - repeat constructor. }
  split.
  - apply Hfound; [reflexivity|vm_compute; split; discriminate].
  - apply Hnone. apply Forall_forall.
    repeat constructor; vm_compute; intros [H1 H2];
      first [apply H1; reflexivity | apply H2; reflexivity].
Defined.

Lemma find_mu_at (m : FM.t) (address : Z) (i : nat) (mu : FMU.t) :
  units_ok (FM._mu m) → FM._mu m !! i = Some mu →
  FMU.start mu ≤ address ≤ FMU.end_ mu →
  FM._find_mu m address = Return (i, mu).
Proof.
  intros [Hok Hpos Hsorted] Hi Hin. unfold FM._find_mu.
  rewrite (proj2 (list_find_Some _ _ i mu)); [done|].
  split; [done|]. split.
  - apply Is_true_true, unit_contains; [|done].
    by apply (Forall_lookup_1 _ _ _ _ Hok Hi).
  - intros j u Hj Hlt Hcontains. apply Is_true_true in Hcontains.
    apply unit_contains in Hcontains;
      [|by apply (Forall_lookup_1 _ _ _ _ Hok Hj)].
    pose proof (StronglySorted_lookup _ _ j i u mu Hsorted Hj Hi Hlt) as Hbefore.
    unfold before in Hbefore. lia.
Qed.

Lemma map_read_at (m : FM.t) (address : Z) (i : nat) (mu : FMU.t) (val : pyval)
    (no_error : bool) :
  units_ok (FM._mu m) → FM._mu m !! i = Some mu →
  FMU.start mu ≤ address ≤ FMU.end_ mu →
  FM.read m address val no_error = (Return (PyInt (stored_or_zero mu address)), m).
Proof.
  intros Hunits Hi Hin.
  unfold FM.read, FM._read_write_method. rewrite (find_mu_at m address i mu) by done.
  simpl. unfold FM.call_read. simpl.
  assert (unit_ok mu) as Hok
    by apply (Forall_lookup_1 _ _ _ _ (units_unit_ok _ Hunits) Hi).
  destruct (read_stored_or_zero mu address Hok) as [Htrue Hfalse].
  destruct no_error; [by rewrite Htrue|by rewrite Hfalse].
Qed.

Lemma read_block_outcome (mu : FMU.t) (no_error : bool) (addresses : list Z) :
  unit_ok mu →
  match mapM (λ x, FMU.read mu x no_error) addresses with
  | Return _ => True
  | Raise e => is_IOError e = true ∧ no_error = false
  end.
Proof.
  intros Hok. unfold mapM.
  induction addresses as [|x addresses IH]; simpl; [done|].
  destruct (decide (FMU.start mu ≤ x ≤ FMU.end_ mu)) as [Hin|Hout].
  - destruct (read_inside mu x no_error Hok Hin) as (v & -> & _). simpl.
    destruct (_ addresses) as [l|e]; simpl; done.
  - rewrite read_outside by done. destruct no_error; simpl; [|done].
    destruct (_ addresses) as [l|e]; simpl; [done|]. by destruct IH.
Qed.

(** X11. In a map whose units are well formed, not empty, sorted and
    disjoint, reading an address owned by a unit returns the byte that unit
    stores there and leaves the map as it was, whatever is passed as [val].
    [read32] is answered by the unit that owns the first address alone: the
    result is that unit's [read32], so a block that runs past the end of the
    unit raises (or is padded with zeroes when [no_error] is set) even when
    another unit follows. *)
Theorem map_read_owner (m : FM.t) (address : Z) (i : nat) (mu : FMU.t)
    (val : pyval) (no_error : bool) :
  units_ok (FM._mu m) → FM._mu m !! i = Some mu →
  FMU.start mu ≤ address ≤ FMU.end_ mu →
  FM.read m address val no_error = (Return (PyInt (stored_or_zero mu address)), m) ∧
  FM.read32 m address val no_error = (PyList <$> FMU.read32 mu address no_error, m).
Proof.
  intros Hunits Hi Hin. split; [by apply (map_read_at m address i)|].
  unfold FM.read32, FM._read_write_method.
  rewrite (find_mu_at m address i mu) by done.
  simpl. unfold FM.call_read. simpl.
  assert (unit_ok mu) as Hok
    by apply (Forall_lookup_1 _ _ _ _ (units_unit_ok _ Hunits) Hi).
  pose proof (read_block_outcome mu no_error (seqZ address 32) Hok) as Hout.
  unfold FMU.read32, FMU.read_block.
  destruct (mapM _ _) as [l|e]; simpl; [done|].
  destruct Hout as [-> ->]. done.
Qed.

Lemma map_read_owner_witness :
  let m := (add_ranges FM.__init__ [(0x10, 0x10); (0x20, 0x10)]).2 in
  FM.read m 0x1F PyNone false = (Return (PyInt 0), m) ∧
  FM.read32 m 0x1F PyNone false = (Raise (IOError_out_of_range 0x20), m).
Proof.
  destruct (map_read_owner (add_ranges FM.__init__ [(0x10, 0x10); (0x20, 0x10)]).2
              0x1F 0%nat (FMU.__init__ 0x10 0x10 "") PyNone false)
    as [Hread Hread32].
  - split.
    + repeat constructor; vm_compute; discriminate.
    + repeat constructor.
    + repeat constructor.
  - reflexivity.
  - vm_compute. split; discriminate.
  - split; [exact Hread|exact Hread32].
Defined.

Lemma units_ok_insert (units : list FMU.t) (i : nat) (mu mu' : FMU.t) :
  units_ok units → units !! i = Some mu → unit_ok mu' →
  request_of mu' = request_of mu → units_ok (<[i:=mu']> units).
Proof.
  intros Hunits Hi Hok' Hreq. apply (units_ok_layout units); [| |done].
  - rewrite list_fmap_insert, Hreq. apply list_insert_id.
    by rewrite list_lookup_fmap, Hi.
  - apply Forall_insert; [apply (units_unit_ok _ Hunits)|done].
Qed.

Lemma stored_after_block_write (mu : FMU.t) (A : Z) (bs : list Z) (k : nat) (b : Z) :
  unit_ok mu → FMU.start mu ≤ A ≤ FMU.end_ mu →
  A + Z.of_nat (length bs) - 1 ≤ FMU.end_ mu → bs !! k = Some b →
  let i := Z.to_nat (A - FMU.start mu) in
  stored_or_zero
    (FMU.with_data mu (take i (FMU._data mu) ++ bs ++ drop (i + length bs) (FMU._data mu)))
    (A + Z.of_nat k) = b.
Proof.
  intros Hok HA Hlast Hk i. pose proof (data_covers _ Hok) as Hcov.
  pose proof (lookup_lt_Some _ _ _ Hk) as Hlt.
  unfold stored_or_zero.
  change (FMU.start (FMU.with_data mu _)) with (FMU.start mu).
  change (FMU.end_ (FMU.with_data mu _)) with (FMU.end_ mu).
  rewrite bool_decide_true by lia. cbn [FMU._data FMU.with_data].
  assert (length (take i (FMU._data mu)) = i) as Htake.
  { rewrite length_take. unfold i, FMU.end_ in *. lia. }
  replace (Z.to_nat (A + Z.of_nat k - FMU.start mu)) with (i + k)%nat
    by (unfold i; lia).
  rewrite lookup_app_r by lia. rewrite Htake, Nat.add_comm, Nat.add_sub.
  rewrite lookup_app_l by done. by rewrite Hk.
Qed.

(** X12. In a map whose units are well formed, not empty, sorted and
    disjoint, writing a list of byte values at an address such that the
    whole block lies inside the owning unit returns normally; every address
    of the block then reads, through the map, as the byte written there,
    all other units are untouched and the map keeps its invariant. *)
Theorem map_write_then_read (m : FM.t) (A : Z) (bs : list Z) (i : nat)
    (mu : FMU.t) (no_error : bool) :
  units_ok (FM._mu m) → FM._mu m !! i = Some mu →
  Forall (λ b, 0 ≤ b < 256) bs →
  FMU.start mu ≤ A ≤ FMU.end_ mu →
  A + Z.of_nat (length bs) - 1 ≤ FMU.end_ mu →
  ∃ m', FM.write m A (PyList bs) no_error = (Return PyNone, m') ∧
        units_ok (FM._mu m') ∧
        (∀ k b val no_error', bs !! k = Some b →
           FM.read m' (A + Z.of_nat k) val no_error' = (Return (PyInt b), m')) ∧
        (∀ j, j ≠ i → FM._mu m' !! j = FM._mu m !! j).
Proof.
  intros Hunits Hi Hbs HA Hlast.
  assert (unit_ok mu) as Hok
    by apply (Forall_lookup_1 _ _ _ _ (units_unit_ok _ Hunits) Hi).
  pose proof (data_covers _ Hok) as Hcov.
  pose proof (lookup_lt_Some _ _ _ Hi) as Hilt.
  set (k0 := Z.to_nat (A - FMU.start mu)).
  set (mu' := FMU.with_data mu (take k0 (FMU._data mu) ++ bs ++
                                  drop (k0 + length bs) (FMU._data mu))).
  assert (unit_ok mu') as Hok'.
  { split; [apply (range_ok _ Hok)|]. cbn.
    rewrite !length_app, length_take, length_drop. unfold k0, FMU.end_ in *. lia. }
  exists {| FM._mu := <[i:=mu']> (FM._mu m) |}.
  assert (units_ok (<[i:=mu']> (FM._mu m))) as Hunits'
    by (by apply (units_ok_insert _ _ mu)).
  split_and!.
  - unfold FM.write, FM._read_write_method.
    rewrite (find_mu_at m A i mu) by done. simpl. unfold FM.call_write. simpl.
    by rewrite write_block_inside.
  - done.
  - intros k b val no_error' Hk.
    pose proof (lookup_lt_Some _ _ _ Hk) as Hlt.
    rewrite (map_read_at _ _ i mu'); [| done | by apply list_lookup_insert_eq | ].
    + do 3 f_equal. by apply stored_after_block_write.
    + change (FMU.start mu ≤ A + Z.of_nat k ≤ FMU.end_ mu). lia.
  - intros j Hj. cbn. by apply list_lookup_insert_ne.
Qed.

Lemma map_write_then_read_witness :
  let m := (add_ranges FM.__init__ [(0x10, 0x10); (0x50, 0x10)]).2 in
  ∃ m', FM.write m 0x52 (PyList [0xAA; 0xBB; 0xCC]) false = (Return PyNone, m') ∧
        FM.read m' 0x53 PyNone false = (Return (PyInt 0xBB), m') ∧
        FM._mu m' !! 0%nat = FM._mu m !! 0%nat.
Proof.
  destruct (map_write_then_read
              (add_ranges FM.__init__ [(0x10, 0x10); (0x50, 0x10)]).2
              0x52 [0xAA; 0xBB; 0xCC] 1 (FMU.__init__ 0x50 0x10 "") false)
    as (m' & Hw & _ & Hread & Hother).
  - split.
    + repeat constructor; vm_compute; discriminate.
    + repeat constructor.
    + repeat constructor.
  - reflexivity.
  - repeat constructor; lia.
  - vm_compute. split; discriminate.
  - vm_compute. discriminate.
  - exists m'. split; [exact Hw|]. split.
    + apply (Hread 1%nat 0xBB PyNone false). reflexivity.
    + apply Hother. discriminate.
Defined.

(** X13. [clear()] on the map keeps the layout and the invariant of the
    map, and afterwards every address owned by a unit reads as 0. *)
Theorem map_clear (m : FM.t) :
  units_ok (FM._mu m) →
  request_of <$> FM._mu (FM.clear m) = request_of <$> FM._mu m ∧
  units_ok (FM._mu (FM.clear m)) ∧
  ∀ i mu address val no_error,
    FM._mu m !! i = Some mu → FMU.start mu ≤ address ≤ FMU.end_ mu →
    FM.read (FM.clear m) address val no_error = (Return (PyInt 0), FM.clear m).
Proof.
  intros Hunits.
  assert (request_of <$> FM._mu (FM.clear m) = request_of <$> FM._mu m) as Hlayout.
  { cbn. rewrite <- list_fmap_compose. by apply list_fmap_ext. }
  assert (units_ok (FM._mu (FM.clear m))) as Hunits'.
  { apply (units_ok_layout (FM._mu m)); [done| |done].
    cbn. apply Forall_fmap.
    eapply Forall_impl; [apply (units_unit_ok _ Hunits)|]. apply clear_ok. }
  split; [done|]. split; [done|].
  intros i mu address val no_error Hi Hin.
  assert (unit_ok mu) as Hok
    by apply (Forall_lookup_1 _ _ _ _ (units_unit_ok _ Hunits) Hi).
  rewrite (map_read_at _ _ i (FMU.clear mu)); [|done| |done].
  - do 3 f_equal. unfold stored_or_zero.
    change (FMU.start (FMU.clear mu)) with (FMU.start mu).
    change (FMU.end_ (FMU.clear mu)) with (FMU.end_ mu).
    rewrite bool_decide_true by done. cbn. unfold zeroes.
    rewrite lookup_replicate_2; [done|]. unfold FMU.end_ in Hin. lia.
  - cbn. by rewrite list_lookup_fmap, Hi.
Qed.

Lemma map_clear_witness :
  let m := (FM.write (add_ranges FM.__init__ [(0x10, 0x10)]).2 0x12
              (PyList [1; 2; 3]) false).2 in
  FM.read m 0x13 PyNone false = (Return (PyInt 2), m) ∧
  FM.read (FM.clear m) 0x13 PyNone false = (Return (PyInt 0), FM.clear m).
Proof.
  split; [reflexivity|].
  destruct (map_clear (FM.write (add_ranges FM.__init__ [(0x10, 0x10)]).2 0x12
                         (PyList [1; 2; 3]) false).2) as (_ & _ & Hread).
  - split.
    + repeat constructor; vm_compute; discriminate.
    + repeat constructor.
    + repeat constructor.
  - eapply (Hread 0%nat); [reflexivity|].
    vm_compute. split; discriminate.
Defined.

(** ** FakeMemory: [add_range] *)

Lemma find_position_by_start (new_mu : FMU.t) (units : list FMU.t) (k p' : nat) :
  StronglySorted (λ u v, FMU.start u ≤ FMU.start v) units →
  FM.find_position new_mu units k = Return p' →
  ∃ p, p' = (k + p)%nat ∧
       Forall (λ u, FMU.start u ≤ FMU.start new_mu) (take p units) ∧
       Forall (λ u, FMU.start new_mu < FMU.start u) (drop p units).
Proof.
  intros Hsorted. revert k.
  induction units as [|fmu units IH]; intros k; simpl.
  { intros [= <-]. exists 0%nat. by rewrite Nat.add_0_r. }
  apply StronglySorted_cons in Hsorted as [Hlater Hsorted].
  destruct (_ || _); [done|].
  destruct (FMU.start new_mu <? FMU.start fmu) eqn:Hlt.
  - apply Z.ltb_lt in Hlt. intros [= <-]. exists 0%nat. rewrite Nat.add_0_r.
    split; [done|]. split; [constructor|]. simpl. constructor; [done|].
    eapply Forall_impl; [exact Hlater|]. simpl. lia.
  - apply Z.ltb_ge in Hlt. intros Hfind.
    destruct (IH Hsorted _ Hfind) as (p & -> & Htake & Hdrop).
    exists (S p). rewrite Nat.add_succ_r. split; [done|]. split; [|done].
    simpl. by constructor.
Qed.

Lemma add_range_Return (m m' : FM.t) (addr_start len : Z) (description : string) :
  FM.add_range m addr_start len description = (Return (), m') →
  ∃ p, FM.find_position (FMU.__init__ addr_start len description) (FM._mu m) 0
         = Return p ∧
       FM.check_next (FMU.__init__ addr_start len description) (FM._mu m) p
         = Return () ∧
       FM._mu m' = take p (FM._mu m) ++
                   FMU.__init__ addr_start len description :: drop p (FM._mu m).
Proof.
  unfold FM.add_range.
  destruct (FM.find_position _ _ _) as [p|e]; [|done].
  unfold mbind, result_bind.
  destruct (FM.check_next _ _ _) as [[]|e] eqn:Hcheck; [|done].
  intros [= <-]. by exists p.
Qed.

(** X14. Whatever range is requested and whatever the outcome of the
    call, [add_range] keeps the units in ascending order of their start
    addresses. *)
Theorem add_range_keeps_start_order (m : FM.t) (addr_start len : Z)
    (description : string) :
  StronglySorted (λ u v, FMU.start u ≤ FMU.start v) (FM._mu m) →
  StronglySorted (λ u v, FMU.start u ≤ FMU.start v)
    (FM._mu (FM.add_range m addr_start len description).2).
Proof.
  intros Hsorted.
  destruct (FM.add_range m addr_start len description) as [[[]|e] m'] eqn:Hadd.
  - apply add_range_Return in Hadd as (p' & Hfind & _ & Hmu).
    apply find_position_by_start in Hfind as (p & -> & Htake & Hdrop); [|done].
    simpl in *. rewrite Hmu. rewrite <- (take_drop p (FM._mu m)) in Hsorted.
    apply StronglySorted_app in Hsorted as (Hcross & H1 & H2).
    apply StronglySorted_app_2; [|done|].
    + intros u v Hu [->|Hv]%elem_of_cons; [|by apply Hcross].
      by apply (proj1 (Forall_forall _ _) Htake).
    + constructor; [done|]. eapply Forall_impl; [exact Hdrop|]. simpl. lia.
  - pose proof (add_range_Raise_unchanged m addr_start len description e) as Hsame.
    rewrite Hadd in Hsame. simpl in *. by rewrite Hsame.
Qed.

Lemma add_range_keeps_start_order_witness :
  StronglySorted (λ u v, FMU.start u ≤ FMU.start v)
    (FM._mu (FM.add_range (add_ranges FM.__init__ [(0x50, 10); (0x10, 32)]).2
               0x00 0x30 "").2).
Proof.
  apply add_range_keeps_start_order.
  repeat constructor; vm_compute; discriminate.
Defined.

(** X15. [add_range] either inserts the new unit, filled with zeroes, at
    one position of the list and leaves every existing unit as it was and in
    the same order, or raises the overlap [ValueError] and leaves the map
    as it was; it raises nothing else. *)
Theorem add_range_outcome (m : FM.t) (addr_start len : Z) (description : string) :
  (∃ p, (p ≤ length (FM._mu m))%nat ∧
        FM.add_range m addr_start len description =
          (Return (), {| FM._mu := take p (FM._mu m) ++
                                   FMU.__init__ addr_start len description ::
                                   drop p (FM._mu m) |})) ∨
  FM.add_range m addr_start len description = (Raise ValueError_overlap, m).
Proof.
  assert (∀ units k p, FM.find_position
                         (FMU.__init__ addr_start len description) units k = Return p →
                       (p ≤ k + length units)%nat) as Hbound.
  { induction units as [|fmu units IH]; intros k p; simpl.
    - intros [= <-]. lia.
    - destruct (_ || _); [done|]. destruct (_ <? _).
      + intros [= <-]. lia.
      + intros Hp%IH. lia. }
  destruct (FM.add_range m addr_start len description) as [[[]|e] m'] eqn:Hadd.
  - left. pose proof Hadd as Hadd'.
    apply add_range_Return in Hadd' as (p & Hfind%Hbound & _ & Hmu).
    exists p. split; [done|]. destruct m' as [units']. simpl in Hmu. by rewrite Hmu.
  - right.
    pose proof (add_range_Raise_overlap m addr_start len description e) as Hexn.
    pose proof (add_range_Raise_unchanged m addr_start len description e) as Hsame.
    rewrite Hadd in Hexn, Hsame. simpl in *. by rewrite Hexn, Hsame.
Qed.

(** X16. In a map whose units are well formed, not empty, sorted and
    disjoint, a requested range whose first or last address lies in an
    existing unit (equality with a boundary included) is rejected with the
    overlap [ValueError], and the map is left as it was. *)
Theorem add_range_rejects_boundary_overlap (m : FM.t) (mu : FMU.t)
    (addr_start len : Z) (description : string) :
  units_ok (FM._mu m) → mu ∈ FM._mu m →
  FMU.start mu ≤ addr_start ≤ FMU.end_ mu
  ∨ FMU.start mu ≤ addr_start + len - 1 ≤ FMU.end_ mu →
  FM.add_range m addr_start len description = (Raise ValueError_overlap, m).
Proof.
  intros Hunits Hmu Hin. apply add_range_rejects_end_point_overlap; [done|].
  apply Exists_exists. by exists mu.
Qed.

Lemma add_range_rejects_boundary_overlap_witness :
  let m := (add_ranges FM.__init__ [(0x10, 32)]).2 in
  FM.add_range m 0x10 10 "" = (Raise ValueError_overlap, m) ∧
  FM.add_range m (0x30 - 2) 10 "" = (Raise ValueError_overlap, m) ∧
  FM.add_range m 0x00 (16 + 1) "" = (Raise ValueError_overlap, m).
Proof.
  assert (units_ok (FM._mu (add_ranges FM.__init__ [(0x10, 32)]).2)) as Hunits.
  { split.
    - repeat constructor; vm_compute; discriminate.
    - repeat constructor.
    - repeat constructor. }
  split_and!.
  - apply (add_range_rejects_boundary_overlap _ (FMU.__init__ 0x10 32 ""));
      [done|by left|].
    left. vm_compute. split; discriminate.
  - apply (add_range_rejects_boundary_overlap _ (FMU.__init__ 0x10 32 ""));
      [done|by left|].
    left. vm_compute. split; discriminate.
  - apply (add_range_rejects_boundary_overlap _ (FMU.__init__ 0x10 32 ""));
      [done|by left|].
    right. vm_compute. split; discriminate.
Defined.

Lemma find_position_Return_ok (new_mu : FMU.t) (units : list FMU.t) (k p' : nat) :
  units_ok units →
  FM.find_position new_mu units k = Return p' →
  ∃ p, p' = (k + p)%nat ∧
       Forall (λ u, before u new_mu) (take p units) ∧
       ∀ u, units !! p = Some u →
            FMU.start new_mu < FMU.start u ∧
            ¬ (FMU.start u ≤ FMU.end_ new_mu ≤ FMU.end_ u).
Proof.
  intros [Hok Hpos Hsorted]. revert k.
  induction units as [|fmu units IH]; intros k; simpl.
  { intros [= <-]. exists 0%nat. by rewrite Nat.add_0_r. }
  apply Forall_cons in Hok as [Hfmu Hok].
  apply Forall_cons in Hpos as [Hlen Hpos].
  apply StronglySorted_cons in Hsorted as [Hlater Hsorted].
  destruct (FMU.start new_mu in_range FMU.range fmu) eqn:Hs; [done|].
  destruct (FMU.end_ new_mu in_range FMU.range fmu) eqn:He; [done|]. simpl.
  apply contains_false in Hs, He.
  rewrite (range_ok _ Hfmu) in Hs, He. cbn in Hs, He.
  destruct (FMU.start new_mu <? FMU.start fmu) eqn:Hlt.
  - apply Z.ltb_lt in Hlt. intros [= <-]. exists 0%nat. rewrite Nat.add_0_r.
    split; [done|]. split; [constructor|]. intros u [= <-]. done.
  - apply Z.ltb_ge in Hlt. intros Hfind.
    destruct (IH Hok Hpos Hsorted _ Hfind) as (p & -> & Htake & Hat).
    exists (S p). rewrite Nat.add_succ_r. split; [done|]. split; [|done].
    simpl. constructor; [|done]. unfold before. lia.
Qed.

Lemma check_next_Return (new_mu : FMU.t) (units : list FMU.t) (p : nat) :
  units_ok units → FM.check_next new_mu units p = Return () →
  Forall (before new_mu) (drop (S p) units).
Proof.
  intros [_ Hpos Hsorted]. unfold FM.check_next.
  rewrite Nat.add_1_r.
  destruct (units !! S p) as [next_mu|] eqn:Hnext.
  - destruct (FMU.end_ new_mu >=? FMU.start next_mu) eqn:Hge; [done|]. intros _.
    assert (FMU.end_ new_mu < FMU.start next_mu) as Hbefore.
    { destruct (Z.geb_spec (FMU.end_ new_mu) (FMU.start next_mu)); [done|lia]. }
    rewrite <- (take_drop_middle _ _ _ Hnext) in Hsorted.
    apply StronglySorted_app_1_r, StronglySorted_cons in Hsorted as [Hlater _].
    apply (Forall_lookup_1 _ _ _ _ Hpos) in Hnext as Hlen. simpl in Hlen.
    rewrite (drop_S _ _ _ Hnext). constructor; [done|].
    eapply Forall_impl; [exact Hlater|]. intros u Hu.
    unfold before, FMU.end_ in *. lia.
  - intros _. rewrite drop_ge; [constructor|]. by apply lookup_ge_None.
Qed.

(** X17. What a successful [add_range] can leave behind in a map whose
    units were well formed, not empty, sorted and disjoint: the units
    before the new one end before it starts, the units after the next one
    start after it ends, and the unit right after the new one either starts
    after it ends or lies strictly inside it. So at most one existing unit
    overlaps the new unit, and only by being enclosed in it. *)
Theorem add_range_success_shape (m m' : FM.t) (addr_start len : Z)
    (description : string) :
  units_ok (FM._mu m) →
  FM.add_range m addr_start len description = (Return (), m') →
  ∃ p, FM._mu m' = take p (FM._mu m) ++
                   FMU.__init__ addr_start len description :: drop p (FM._mu m) ∧
       Forall (λ u, FMU.end_ u < addr_start) (take p (FM._mu m)) ∧
       Forall (λ u, addr_start + len - 1 < FMU.start u) (drop (S p) (FM._mu m)) ∧
       ∀ u, FM._mu m !! p = Some u →
            addr_start + len - 1 < FMU.start u ∨
            (addr_start < FMU.start u ∧ FMU.end_ u < addr_start + len - 1).
Proof.
  intros Hunits Hadd.
  apply add_range_Return in Hadd as (p' & Hfind & Hcheck & Hmu).
  apply find_position_Return_ok in Hfind as (p & -> & Htake & Hat); [|done].
  apply check_next_Return in Hcheck; [|done].
  exists p. split; [done|]. split; [done|]. split; [done|].
  intros u Hu. destruct (Hat u Hu) as [Hstart Hend].
  change (FMU.start (FMU.__init__ addr_start len description)) with addr_start in *.
  change (FMU.end_ (FMU.__init__ addr_start len description))
    with (addr_start + len - 1) in *.
  lia.
Qed.

Lemma add_range_success_shape_witness :
  let m := (add_ranges FM.__init__ [(0x10, 0x10); (0x50, 0x10)]).2 in
  ∃ p, FM._mu (FM.add_range m 0x00 0x40 "").2
       = take p (FM._mu m) ++ FMU.__init__ 0x00 0x40 "" :: drop p (FM._mu m) ∧
       Forall (λ u, 0x00 + 0x40 - 1 < FMU.start u) (drop (S p) (FM._mu m)).
Proof.
  destruct (add_range_success_shape
              (add_ranges FM.__init__ [(0x10, 0x10); (0x50, 0x10)]).2
              (FM.add_range (add_ranges FM.__init__ [(0x10, 0x10); (0x50, 0x10)]).2
                 0x00 0x40 "").2 0x00 0x40 "")
    as (p & Hmu & _ & Hafter & _).
  - split.
    + repeat constructor; vm_compute; discriminate.
    + repeat constructor.
    + repeat constructor.
  - reflexivity.
  - exists p. split; [exact Hmu|exact Hafter].
Defined.

(** ** FakeMemoryItf: the commands *)

Lemma map_write_block_inside (m : FM.t) (A : Z) (bs : list Z) (i : nat)
    (mu : FMU.t) (no_error : bool) :
  units_ok (FM._mu m) → FM._mu m !! i = Some mu →
  Forall (λ b, 0 ≤ b < 256) bs →
  FMU.start mu ≤ A ≤ FMU.end_ mu →
  A + Z.of_nat (length bs) - 1 ≤ FMU.end_ mu →
  let k := Z.to_nat (A - FMU.start mu) in
  let mu' := FMU.with_data mu (take k (FMU._data mu) ++ bs ++
                                drop (k + length bs) (FMU._data mu)) in
  FM.write m A (PyList bs) no_error
  = (Return PyNone, {| FM._mu := <[i:=mu']> (FM._mu m) |}) ∧
  unit_ok mu' ∧ units_ok (<[i:=mu']> (FM._mu m)).
Proof.
  intros Hunits Hi Hbs HA Hlast k mu'.
  assert (unit_ok mu) as Hok
    by apply (Forall_lookup_1 _ _ _ _ (units_unit_ok _ Hunits) Hi).
  pose proof (data_covers _ Hok) as Hcov.
  assert (unit_ok mu') as Hok'.
  { split; [apply (range_ok _ Hok)|]. cbn.
    rewrite !length_app, length_take, length_drop. unfold k, FMU.end_ in *. lia. }
  split_and!; [|done|by apply (units_ok_insert _ _ mu)].
  unfold FM.write, FM._read_write_method.
  rewrite (find_mu_at m A i mu) by done. simpl. unfold FM.call_write. simpl.
  by rewrite write_block_inside.
Qed.

Lemma clear_units_ok (m : FM.t) :
  units_ok (FM._mu m) → units_ok (FM._mu (FM.clear m)).
Proof.
  intros Hunits. apply (units_ok_layout (FM._mu m)); [| |done].
  - cbn. rewrite <- list_fmap_compose. by apply list_fmap_ext.
  - cbn. apply Forall_fmap.
    eapply Forall_impl; [apply (units_unit_ok _ Hunits)|]. apply clear_ok.
Qed.

Section commands.
Context `{SRec, Builtins}.

(** The memory a record line leaves behind is the memory it found, or what
    one non-tolerant block write through the map made of it. *)
Lemma cmd_write_srec_state (self : FakeMemoryItf.t) (srec : string) :
  (FakeMemoryItf.cmd_write_srec self srec).2 = self ∨
  ∃ addr data,
    (FakeMemoryItf.cmd_write_srec self srec).2 =
      {| FakeMemoryItf._m := (FM.write (FakeMemoryItf._m self) addr (PyList data) false).2 |}.
Proof.
  unfold FakeMemoryItf.cmd_write_srec.
  destruct (_ ← parse_srec srec; _) as [[[[rtype addr] data] valid]|e]; [|by left].
  destruct valid; simpl; [|by left].
  destruct (String.eqb rtype "S0"); [by left|].
  destruct (String.eqb rtype "S3"); [|by destruct (String.eqb rtype "S7"); left].
  unfold FakeMemoryItf.write_data.
  destruct (_ ← helpers.chunker data 2; _) as [bytes|e]; [|by left].
  right. exists addr, bytes.
  by destruct (FM.write (FakeMemoryItf._m self) addr (PyList bytes) false).
Qed.

Lemma itf_reachable_ok (self : FakeMemoryItf.t) :
  itf_reachable self →
  request_of <$> FM._mu (FakeMemoryItf._m self) = [(0x10000000, 1024 * 1024)] ∧
  units_ok (FM._mu (FakeMemoryItf._m self)).
Proof.
  induction 1 as [|self _ [Hlayout Hunits]|self srec _ [Hlayout Hunits]].
  - split; [reflexivity|].
    change (FM._mu (FakeMemoryItf._m FakeMemoryItf.__init__))
      with [FMU.__init__ 0x10000000 (1024 * 1024) "Flash"].
    split.
    + constructor; [apply init_ok|constructor].
    + constructor; [|constructor].
      change (0 < 1024 * 1024). lia.
    + repeat constructor.
  - split; [|by apply clear_units_ok].
    cbn. rewrite <- list_fmap_compose. rewrite <- Hlayout. by apply list_fmap_ext.
  - destruct (cmd_write_srec_state self srec) as [->|(addr & data & ->)]; [done|].
    cbn [FakeMemoryItf._m].
    destruct (write_replaces_in_place (FakeMemoryItf._m self) addr (PyList data) false)
      as [->|(i & mu & mu' & Hi & Hreq & Hok & ->)]; [done|].
    cbn [FM._mu]. split.
    + rewrite list_fmap_insert, Hreq, <- Hlayout. apply list_insert_id.
      by rewrite list_lookup_fmap, Hi.
    + apply (units_ok_insert _ _ mu); [done..| |done].
      apply Hok. by apply (Forall_lookup_1 _ _ _ _ (units_unit_ok _ Hunits) Hi).
Qed.

Lemma itf_reachable_unit (self : FakeMemoryItf.t) :
  itf_reachable self →
  ∃ mu, FM._mu (FakeMemoryItf._m self) = [mu] ∧ unit_ok mu ∧
        FMU.start mu = 0x10000000 ∧ FMU.end_ mu = 0x100FFFFF.
Proof.
  intros [Hlayout Hunits]%itf_reachable_ok.
  destruct (FM._mu (FakeMemoryItf._m self)) as [|mu [|mu2 units]]; [done| |done].
  injection Hlayout as Hstart Hlen. exists mu. split; [done|].
  split; [by apply (Forall_inv (units_unit_ok _ Hunits))|].
  split; [done|]. unfold FMU.end_. rewrite Hstart, Hlen. done.
Qed.

(** X18. Whatever commands the interface has run, with whatever outcome,
    its memory is one unit of 1 MiB at 0x10000000: no command adds,
    removes, moves or resizes a range. Every address from 0x10000000 to
    0x100FFFFF reads as the byte stored for it, without an error, and
    every other address raises the missing-address error (or gives [None]
    when [no_error] is set). *)
Theorem itf_layout_invariant (self : FakeMemoryItf.t) :
  itf_reachable self →
  ∃ mu, FM._mu (FakeMemoryItf._m self) = [mu] ∧
        request_of mu = (0x10000000, 1024 * 1024) ∧
        (∀ address val no_error, 0x10000000 ≤ address ≤ 0x100FFFFF →
           FM.read (FakeMemoryItf._m self) address val no_error
           = (Return (PyInt (stored_or_zero mu address)), FakeMemoryItf._m self)) ∧
        (∀ address val no_error, ¬ (0x10000000 ≤ address ≤ 0x100FFFFF) →
           FM.read (FakeMemoryItf._m self) address val no_error
           = (if no_error then Return PyNone else Raise (IOError_no_address address),
              FakeMemoryItf._m self)).
Proof.
  intros Hreach.
  destruct (itf_reachable_ok self Hreach) as [Hlayout Hunits].
  destruct (itf_reachable_unit self Hreach) as (mu & Hmu & Hok & Hstart & Hend).
  exists mu. split; [done|]. split.
  { rewrite Hmu in Hlayout. injection Hlayout as Hs Hl.
    unfold request_of. by rewrite Hs, Hl. }
  split.
  - intros address val no_error Ha. apply (map_read_at _ _ 0); [done|by rewrite Hmu|lia].
  - intros address val no_error Ha. apply read_write_unmapped.
    rewrite Hmu. constructor; [|constructor].
    apply contains_false. rewrite (range_ok _ Hok). cbn. lia.
Qed.

(** X19. A record line of type S0 or S7 that parses, whose address decodes
    and whose checksum is valid makes the command return [True] and leaves
    the memory as it was. *)
Theorem framing_records_accepted (self : FakeMemoryItf.t)
    (srec rtype rlen addr data chk : string) (a : Z) :
  parse_srec srec = Return (rtype, rlen, addr, data, chk) →
  int16 addr = Return a →
  validate_srec_checksum (strip srec) = Return true →
  rtype = "S0"%string ∨ rtype = "S7"%string →
  FakeMemoryItf.cmd_write_srec self srec = (Return true, self).
Proof.
  intros Hparse Haddr Hchk Htype. unfold FakeMemoryItf.cmd_write_srec.
  rewrite Hparse. unfold mbind, result_bind. rewrite Haddr, Hchk.
  by destruct Htype as [-> | ->].
Qed.

(** X20. A record line of type S3 that parses, whose address decodes, whose
    checksum is valid and whose data decodes, two characters at a time, into
    byte values that all fit in the unit that owns the address makes the
    command return [True]; every address of the block then reads as the
    byte decoded for it, and the memory keeps its invariant. *)
Theorem data_record_written (self : FakeMemoryItf.t)
    (srec rlen addr data chk : string) (a : Z) (chunks : list string)
    (bytes : list Z) (i : nat) (mu : FMU.t) :
  parse_srec srec = Return ("S3"%string, rlen, addr, data, chk) →
  int16 addr = Return a →
  validate_srec_checksum (strip srec) = Return true →
  helpers.chunker data 2 = Return chunks →
  mapM int16 chunks = Return bytes →
  Forall (λ b, 0 ≤ b < 256) bytes →
  units_ok (FM._mu (FakeMemoryItf._m self)) →
  FM._mu (FakeMemoryItf._m self) !! i = Some mu →
  FMU.start mu ≤ a ≤ FMU.end_ mu →
  a + Z.of_nat (length bytes) - 1 ≤ FMU.end_ mu →
  ∃ self', FakeMemoryItf.cmd_write_srec self srec = (Return true, self') ∧
           units_ok (FM._mu (FakeMemoryItf._m self')) ∧
           ∀ k b val no_error, bytes !! k = Some b →
             FM.read (FakeMemoryItf._m self') (a + Z.of_nat k) val no_error
             = (Return (PyInt b), FakeMemoryItf._m self').
Proof.
  intros Hparse Haddr Hchk Hchunks Hbytes Hok Hunits Hi Ha Hlast.
  destruct (map_write_block_inside (FakeMemoryItf._m self) a bytes i mu false)
    as (Hwrite & Hok' & Hunits'); [done..|].
  eexists. split; [|split].
  - unfold FakeMemoryItf.cmd_write_srec.
    rewrite Hparse. unfold mbind, result_bind. rewrite Haddr, Hchk. simpl.
    unfold FakeMemoryItf.write_data. rewrite Hchunks.
    change (chunks ← Return chunks; mapM int16 chunks) with (mapM int16 chunks).
    rewrite Hbytes, Hwrite. simpl. reflexivity.
  - exact Hunits'.
  - intros k b val no_error Hk. cbn [FakeMemoryItf._m].
    pose proof (lookup_lt_Some _ _ _ Hk) as Hlt.
    pose proof (lookup_lt_Some _ _ _ Hi) as Hilt.
    erewrite (map_read_at _ _ i); [| exact Hunits' | by apply list_lookup_insert_eq | ].
    + do 3 f_equal.
      apply (stored_after_block_write mu a bytes k b); [|done..].
      by apply (Forall_lookup_1 _ _ _ _ (units_unit_ok _ Hunits) Hi).
    + change (FMU.start mu ≤ a + Z.of_nat k ≤ FMU.end_ mu). lia.
Qed.

(** X21. The command is all or nothing: whenever it does not return
    [True] (it returns [False] or raises, for whatever reason) the memory
    is left exactly as it was. *)
Theorem cmd_write_srec_all_or_nothing (self : FakeMemoryItf.t) (srec : string) :
  (FakeMemoryItf.cmd_write_srec self srec).1 ≠ Return true →
  (FakeMemoryItf.cmd_write_srec self srec).2 = self.
Proof.
  unfold FakeMemoryItf.cmd_write_srec.
  destruct (_ ← parse_srec srec; _) as [[[[rtype addr] data] valid]|e]; [|done].
  destruct valid; simpl; [|done].
  destruct (String.eqb rtype "S0"); [done|].
  destruct (String.eqb rtype "S3"); [|by destruct (String.eqb rtype "S7")].
  unfold FakeMemoryItf.write_data.
  destruct (_ ← helpers.chunker data 2; _) as [bytes|e]; [|done].
  assert (∀ e, (FM.write (FakeMemoryItf._m self) addr (PyList bytes) false).1 = Raise e →
               (FM.write (FakeMemoryItf._m self) addr (PyList bytes) false).2
               = FakeMemoryItf._m self) as Hsame.
  { intros e. unfold FM.write, FM._read_write_method.
    destruct (FM._find_mu (FakeMemoryItf._m self) addr) as [[i mu]|e'] eqn:Hfind.
    - apply find_mu_Return in Hfind as [Hi _]. simpl.
      pose proof (call_write_Raise_unchanged mu "write" addr (PyList bytes) false) as Hmu.
      destruct (FM.call_write mu "write" addr (PyList bytes) false) as [[v|e''] mu'];
        [done|].
      simpl in *. rewrite (Hmu e'' eq_refl), (list_insert_id _ _ _ Hi).
      destruct (FakeMemoryItf._m self). by destruct (is_IOError e'').
    - by destruct (is_IOError e'). }
  destruct (FM.write (FakeMemoryItf._m self) addr (PyList bytes) false)
    as [[v|e] m'] eqn:Hwrite; simpl; [done|].
  intros _. specialize (Hsame e eq_refl). simpl in Hsame. rewrite Hsame.
  by destruct self.
Qed.


End commands.

Lemma itf_layout_invariant_witness :
  ∃ mu, FM._mu (FakeMemoryItf._m
                  (@FakeMemoryItf.cmd_write_srec sample_srec sample_builtins
                     (FakeMemoryItf.cmd_erase_memory FakeMemoryItf.__init__).2
                     "S30810000010AABBCCA6").2) = [mu] ∧
        request_of mu = (0x10000000, 1024 * 1024).
Proof.
  destruct (@itf_layout_invariant sample_srec sample_builtins
              (@FakeMemoryItf.cmd_write_srec sample_srec sample_builtins
                 (FakeMemoryItf.cmd_erase_memory FakeMemoryItf.__init__).2
                 "S30810000010AABBCCA6").2)
    as (mu & Hmu & Hreq & _).
  - apply itf_reachable_write_srec, itf_reachable_erase, itf_reachable_init.
  - exists mu. split; [exact Hmu|exact Hreq].
Defined.

Lemma framing_records_accepted_witness :
  @FakeMemoryItf.cmd_write_srec sample_srec sample_builtins sample_itf "S0030000FC"
  = (Return true, sample_itf).
Proof.
  apply (@framing_records_accepted sample_srec sample_builtins sample_itf
           "S0030000FC" "S0" "03" "0000" "" "FC" 0)%string.
  - vm_compute. reflexivity.
  - vm_compute. reflexivity.
  - vm_compute. reflexivity.
  - left. reflexivity.
Defined.

Lemma data_record_written_witness :
  ∃ self',
    @FakeMemoryItf.cmd_write_srec sample_srec sample_builtins sample_itf
      "S30810000010AABBCCA6" = (Return true, self') ∧
    FM.read (FakeMemoryItf._m self') 0x10000011 PyNone false
    = (Return (PyInt 0xBB), FakeMemoryItf._m self').
Proof.
  destruct (@data_record_written sample_srec sample_builtins sample_itf
              "S30810000010AABBCCA6" "08" "10000010" "AABBCC" "A6" 0x10000010
              ["AA"; "BB"; "CC"]%string [0xAA; 0xBB; 0xCC] 0
              (FMU.__init__ 0x10000000 0x100 "Flash"))
    as (self' & Hcmd & _ & Hread).
  - vm_compute. reflexivity.
  - vm_compute. reflexivity.
  - vm_compute. reflexivity.
  - vm_compute. reflexivity.
  - vm_compute. reflexivity.
  - repeat constructor; lia.
  - split.
    + repeat constructor; vm_compute; discriminate.
    + repeat constructor.
    + repeat constructor.
  - reflexivity.
  - vm_compute. split; discriminate.
  - vm_compute. discriminate.
  - exists self'. split; [exact Hcmd|].
    apply (Hread 1%nat 0xBB PyNone false). reflexivity.
Defined.

Lemma cmd_write_srec_all_or_nothing_witness :
  (@FakeMemoryItf.cmd_write_srec sample_srec sample_builtins sample_itf
     "S30820000010AABBCC96").1 = Raise (IOError_no_address 0x20000010) ∧
  (@FakeMemoryItf.cmd_write_srec sample_srec sample_builtins sample_itf
     "S30820000010AABBCC96").2 = sample_itf.
Proof.
  split; [vm_compute; reflexivity|].
  apply (@cmd_write_srec_all_or_nothing sample_srec sample_builtins).
  vm_compute. discriminate.
Defined.


(** ** helpers.py *)

Lemma list_of_substring (s : string) (n m : nat) :
  String.list_ascii_of_string (String.substring n m s)
  = take m (drop n (String.list_ascii_of_string s)).
Proof.
  revert n m. induction s as [|c s IH]; intros [|n] [|m]; simpl;
    rewrite ?IH; done.
Qed.

Lemma list_of_append (s1 s2 : string) :
  String.list_ascii_of_string (String.append s1 s2)
  = String.list_ascii_of_string s1 ++ String.list_ascii_of_string s2.
Proof. induction s1 as [|c s1 IH]; simpl; [done|]. by rewrite IH. Qed.

Lemma length_of_string (s : string) :
  String.length s = length (String.list_ascii_of_string s).
Proof. induction s as [|c s IH]; simpl; [done|]. by rewrite IH. Qed.

Lemma list_of_concat_empty (l : list string) :
  String.list_ascii_of_string (String.concat "" l)
  = mjoin (String.list_ascii_of_string <$> l).
Proof.
  induction l as [|x [|y l] IH]; [done| |].
  - simpl. by rewrite app_nil_r.
  - change (String.concat "" (x :: y :: l))
      with (String.append x (String.append "" (String.concat "" (y :: l)))).
    rewrite !list_of_append, IH. done.
Qed.

Lemma join_chunks {A} (l : list A) (size n : nat) :
  mjoin ((λ k, take size (drop (k * size) l)) <$> seq 0 n) = take (n * size) l.
Proof.
  induction n as [|n IH]; [done|].
  rewrite seq_S, fmap_app, join_app, IH. simpl. rewrite app_nil_r.
  rewrite take_take_drop. f_equal. lia.
Qed.

(** X23. For a positive chunk size, [chunker] cuts the string into
    consecutive pieces: joined together they give the string back, no piece
    is empty or longer than the size, and every piece but the last has
    exactly the size. *)
Theorem chunker_pieces (seq : string) (size : nat) :
  (0 < size)%nat →
  ∃ chunks, helpers.chunker seq size = Return chunks ∧
            String.concat "" chunks = seq ∧
            Forall (λ c, (0 < String.length c ≤ size)%nat) chunks ∧
            ∀ k c, chunks !! k = Some c → (S k < length chunks)%nat →
                   String.length c = size.
Proof.
  intros Hsize. unfold helpers.chunker, helpers.xrange0.
  destruct size as [|size']; [lia|]. set (size := S size') in *.
  set (n := ((String.length seq + size - 1) / size)%nat).
  assert (String.length seq ≤ n * size ∧
          (0 < n → (n - 1) * size < String.length seq))%nat as [Hcover Htight].
  { unfold n.
    pose proof (Nat.div_mod (String.length seq + size - 1) size) as Hdiv.
    pose proof (Nat.mod_upper_bound (String.length seq + size - 1) size) as Hmod.
    split; [nia|]. intros Hn. nia. }
  eexists. split; [reflexivity|].
  change (S size') with size. fold n.
  rewrite <- list_fmap_compose.
  assert (∀ k c, ((λ pos, String.substring pos size seq) ∘ (λ k, k * size)%nat <$> List.seq 0 n)
                 !! k = Some c →
                 (k < n)%nat ∧ c = String.substring (k * size) size seq) as Hlookup.
  { intros k c. rewrite list_lookup_fmap.
    destruct (List.seq 0 n !! k) as [j|] eqn:Hj; [|done].
    apply lookup_seq in Hj as [-> Hk]. simpl. by intros [= <-]. }
  assert (∀ k, String.length (String.substring (k * size) size seq)
               = Nat.min size (String.length seq - k * size)) as Hlen.
  { intros k. rewrite !length_of_string, list_of_substring.
    by rewrite length_take, length_drop. }
  split_and!.
  - rewrite <- (String.string_of_list_ascii_of_string (String.concat _ _)).
    etrans; [|apply (String.string_of_list_ascii_of_string seq)]. f_equal.
    rewrite list_of_concat_empty, <- list_fmap_compose.
    rewrite (list_fmap_ext _ (λ k, take size (drop (k * size)
                                       (String.list_ascii_of_string seq))));
      [|intros i k _; simpl; apply list_of_substring].
    rewrite join_chunks. apply take_ge. rewrite <- length_of_string. lia.
  - apply Forall_lookup. intros k c [Hk ->]%Hlookup. rewrite Hlen. nia.
  - intros k c [Hk ->]%Hlookup Hnext.
    rewrite length_fmap, length_seq in Hnext. rewrite Hlen. nia.
Qed.

Lemma chunker_pieces_witness :
  helpers.chunker "AABBCCD" 2 = Return ["AA"; "BB"; "CC"; "D"]%string ∧
  ∃ chunks, helpers.chunker "AABBCCD" 2 = Return chunks ∧
            String.concat "" chunks = "AABBCCD"%string.
Proof.
  split; [reflexivity|].
  destruct (chunker_pieces "AABBCCD" 2) as (chunks & Hchunks & Hjoin & _).
  - lia.
  - exists chunks. split; [exact Hchunks|exact Hjoin].
Defined.

Lemma length_of_append (s1 s2 : string) :
  String.length (String.append s1 s2) = (String.length s1 + String.length s2)%nat.
Proof. by rewrite !length_of_string, list_of_append, length_app. Qed.

Lemma format_02x_shape (c : Ascii.ascii) :
  String.length (helpers.format_02x c) = 2%nat ∧
  Forall (λ x, x ∈ String.list_ascii_of_string "0123456789abcdef")
         (String.list_ascii_of_string (helpers.format_02x c)).
Proof.
  split; [done|].
  apply (bool_decide_unpack _).
  destruct c as [[] [] [] [] [] [] [] []]; vm_compute; exact I.
Qed.

Lemma concat_colon_shape (l : list string) :
  Forall (λ x, String.length x = 2%nat ∧
               Forall (λ c, c ∈ String.list_ascii_of_string "0123456789abcdef")
                      (String.list_ascii_of_string x)) l →
  String.length (String.concat ":" l) = (3 * length l - 1)%nat ∧
  Forall (λ c, c ∈ String.list_ascii_of_string "0123456789abcdef:")
         (String.list_ascii_of_string (String.concat ":" l)).
Proof.
  assert (∀ x, Forall (λ c, c ∈ String.list_ascii_of_string "0123456789abcdef")
                      (String.list_ascii_of_string x) →
               Forall (λ c, c ∈ String.list_ascii_of_string "0123456789abcdef:")
                      (String.list_ascii_of_string x)) as Hweaken.
  { intros x Hx. eapply Forall_impl; [exact Hx|]. intros c Hc.
    change (String.list_ascii_of_string "0123456789abcdef:")
      with (String.list_ascii_of_string "0123456789abcdef"
            ++ String.list_ascii_of_string ":").
    apply elem_of_app. by left. }
  induction l as [|x [|y l] IH]; intros Hall.
  - split; [done|constructor].
  - apply Forall_cons in Hall as [[Hlen Hchars] _]. simpl. split; [lia|auto].
  - apply Forall_cons in Hall as [[Hlen Hchars] Hall].
    destruct (IH Hall) as [IHlen IHchars].
    change (String.concat ":" (x :: y :: l))
      with (String.append x (String.append ":" (String.concat ":" (y :: l)))).
    split.
    + rewrite !length_of_append, IHlen, Hlen. simpl. lia.
    + rewrite !list_of_append, !Forall_app. split; [auto|]. split; [|done].
      apply (bool_decide_unpack _). vm_compute. exact I.
Qed.

(** X24. [str_to_hexstr] of a string never fails: the result has two
    characters per input character and one colon between neighbours, [3 n -
    1] characters for [n > 0] input characters and none for the empty
    string, and it consists of lowercase hexadecimal digits and colons
    only. Given an integer instead, it succeeds exactly when the integer is
    between 0 and 255, with a result of two characters. *)
Theorem str_to_hexstr_shape :
  (∀ s, ∃ out, helpers.str_to_hexstr (helpers.Str s) = Some out ∧
               String.length out = (3 * String.length s - 1)%nat ∧
               Forall (λ c, c ∈ String.list_ascii_of_string "0123456789abcdef:")
                      (String.list_ascii_of_string out)) ∧
  (∀ n, 0 ≤ n < 256 →
        ∃ out, helpers.str_to_hexstr (helpers.Int n) = Some out ∧
               String.length out = 2%nat) ∧
  (∀ n, ¬ (0 ≤ n < 256) → helpers.str_to_hexstr (helpers.Int n) = None).
Proof.
  split_and!.
  - intros s. eexists. split; [reflexivity|].
    destruct (concat_colon_shape (helpers.format_02x <$> String.list_ascii_of_string s))
      as [Hlen Hchars].
    { apply Forall_fmap, Forall_forall. intros c _. apply format_02x_shape. }
    split; [|done]. by rewrite Hlen, length_fmap, <- length_of_string.
  - intros n Hn. unfold helpers.str_to_hexstr, helpers.chr.
    assert ((0 <=? n) && (n <? 256) = true) as -> by lia.
    eexists. split; [reflexivity|done].
  - intros n Hn. unfold helpers.str_to_hexstr, helpers.chr.
    assert ((0 <=? n) && (n <? 256) = false) as -> by lia. done.
Qed.

(** Left fold of the loop of [ip_to_bin], from an accumulator that already
    holds [acc]. *)
Lemma ip_to_bin_loop (int10 : string → option Z) (subs : list string)
    (acc out : string) :
  foldl (λ out sub,
           match out with
           | Some out =>
               match int10 sub with
               | Some n =>
                   match helpers.chr n with
                   | Some c => Some (String.append out (String c EmptyString))
                   | None => None
                   end
               | None => None
               end
           | None => None
           end) (Some acc) subs = Some out →
  String.length out = (String.length acc + length subs)%nat ∧
  ∀ i sub, subs !! i = Some sub →
    ∃ n, int10 sub = Some n ∧ 0 ≤ n < 256 ∧
         String.get (String.length acc + i) out
         = Some (Ascii.ascii_of_N (Z.to_N n)).
Proof.
  revert acc. induction subs as [|sub subs IH]; intros acc; simpl.
  - intros [= <-]. split; [lia|]. intros i sub' Hi. done.
  - destruct (int10 sub) as [n|] eqn:Hint; cycle 1.
    { intros Hfold. exfalso. clear -Hfold.
      induction subs as [|s subs IH]; [done|]. by apply IH. }
    destruct (helpers.chr n) as [c|] eqn:Hchr; cycle 1.
    { intros Hfold. exfalso. clear -Hfold.
      induction subs as [|s subs IH]; [done|]. by apply IH. }
    intros Hfold. destruct (IH _ Hfold) as [Hlen Hget].
    rewrite length_of_append in Hlen, Hget. simpl in Hlen, Hget.
    split; [lia|]. intros [|i] sub' Hi; simpl in Hi.
    + injection Hi as <-. exists n. split; [done|].
      unfold helpers.chr in Hchr.
      destruct ((0 <=? n) && (n <? 256)) eqn:Hn; [|done].
      injection Hchr as <-. split; [lia|].
      (* the character appended at this step is still there at the end *)
      assert (∀ l a o,
                foldl (λ out sub,
                         match out with
                         | Some out =>
                             match int10 sub with
                             | Some n =>
                                 match helpers.chr n with
                                 | Some c => Some (String.append out (String c EmptyString))
                                 | None => None
                                 end
                             | None => None
                             end
                         | None => None
                         end) (Some a) l = Some o →
                ∀ j, (j < String.length a)%nat → String.get j o = String.get j a)
        as Hkeep.
      { induction l as [|s l IHl]; intros a o; simpl; [by intros [= <-]|].
        destruct (int10 s) as [m|]; cycle 1.
        { intros Hf. exfalso. clear -Hf.
          induction l as [|s' l IH]; [done|]. by apply IH. }
        destruct (helpers.chr m) as [d|]; cycle 1.
        { intros Hf. exfalso. clear -Hf.
          induction l as [|s' l IH]; [done|]. by apply IH. }
        intros Hf j Hj. rewrite (IHl _ _ Hf j).
        - symmetry. by apply String.append_correct1.
        - rewrite length_of_append. lia. }
      rewrite (Hkeep _ _ _ Hfold) by (rewrite length_of_append; simpl; lia).
      rewrite Nat.add_0_r.
      rewrite <- (String.append_correct2 acc (String _ EmptyString) 0). done.
    + destruct (Hget i sub' Hi) as (m & Hm & Hrange & Hchar).
      exists m. split; [done|]. split; [done|]. rewrite <- Hchar. f_equal. lia.
Qed.

(** X25. When [ip_to_bin] succeeds, every field between the dots decoded
    to a number between 0 and 255, and the result has one character per
    field, in order, whose code is that number. *)
Theorem ip_to_bin_fields (int10 : string → option Z) (s out : string) :
  helpers.ip_to_bin int10 s = Some out →
  String.length out = length (helpers.split helpers.dot s) ∧
  ∀ i sub, helpers.split helpers.dot s !! i = Some sub →
    ∃ n, int10 sub = Some n ∧ 0 ≤ n < 256 ∧
         String.get i out = Some (Ascii.ascii_of_N (Z.to_N n)).
Proof.
  intros Hout. by apply (ip_to_bin_loop int10 _ EmptyString) in Hout.
Qed.

Lemma ip_to_bin_fields_witness :
  helpers.ip_to_bin dec_value "65.66.67.68" = Some "ABCD"%string ∧
  String.length "ABCD" = length (helpers.split helpers.dot "65.66.67.68").
Proof.
  split; [reflexivity|].
  apply (ip_to_bin_fields dec_value "65.66.67.68" "ABCD"). reflexivity.
Defined.

(** X26. A write that is rejected changes nothing in the unit: a write
    whose address is outside the unit, a block write with a value outside 0
    to 255 and a single write of such a value all leave the unit as it
    was. They raise the out-of-range [IOError], respectively the
    [ValueError] of the byte array, and return normally instead when
    [no_error] is set. *)
Theorem rejected_write_changes_nothing (mu : FMU.t) (address : Z) (no_error : bool) :
  unit_ok mu →
  (¬ (FMU.start mu ≤ address ≤ FMU.end_ mu) →
   ∀ value, FMU.write mu address value no_error =
     (if no_error then Return () else Raise (IOError_out_of_range address), mu)) ∧
  (FMU.start mu ≤ address ≤ FMU.end_ mu →
   (∀ bs, ¬ Forall (λ b, 0 ≤ b < 256) bs →
      FMU.write mu address (PyList bs) no_error =
        (if no_error then Return () else Raise ValueError_byte, mu)) ∧
   (∀ n, ¬ (0 ≤ n < 256) →
      FMU.write mu address (PyInt n) no_error =
        (if no_error then Return () else Raise ValueError_byte, mu))).
Proof.
  intros Hok. split.
  - intros Hout value. by apply write_first_address_outside.
  - intros Hin. split.
    + intros bs Hbs. by apply write_block_bad_byte.
    + intros n Hn. by apply write_byte_bad_value.
Qed.

Lemma rejected_write_changes_nothing_witness :
  let mu := FMU.__init__ 0x10 1024 "" in
  FMU.write mu 0x00 (PyInt 0xAA) false = (Raise (IOError_out_of_range 0x00), mu) ∧
  FMU.write mu 0x10 (PyInt 256) false = (Raise ValueError_byte, mu) ∧
  FMU.write mu 0x10 (PyList [1; 256]) true = (Return (), mu).
Proof.
  destruct (rejected_write_changes_nothing (FMU.__init__ 0x10 1024 "") 0x00 false)
    as [Hout _].
  { split; [reflexivity|vm_compute; discriminate]. }
  destruct (rejected_write_changes_nothing (FMU.__init__ 0x10 1024 "") 0x10 false)
    as [_ Hbad].
  { split; [reflexivity|vm_compute; discriminate]. }
  destruct (rejected_write_changes_nothing (FMU.__init__ 0x10 1024 "") 0x10 true)
    as [_ Hbad'].
  { split; [reflexivity|vm_compute; discriminate]. }
  split_and!.
  - apply Hout. vm_compute. intros [Hlo _]. apply Hlo. reflexivity.
  - apply Hbad; [vm_compute; split; discriminate|lia].
  - apply Hbad'; [vm_compute; split; discriminate|].
    intros Hall. apply Forall_cons in Hall as [_ Hall].
    apply Forall_cons in Hall as [Hbyte _]. lia.
Defined.
